(** * Timeline compositor of the production monitor

    A shallow embedding of [renderVideoBlob] and [drawImageContain] from
    [src/components/ProductionMonitor.tsx], with the part of [src/types.ts]
    they use.

    Numbers.  JavaScript numbers are modelled as exact rationals ([Q]):
    rounding of IEEE doubles is not modelled.  A media duration that the
    browser reports as [NaN] is [None]; unbounded (streamed) media, whose
    duration is reported as [Infinity], are outside the model.  Pixel
    dimensions of decoded media are integers ([Z]). *)

From Stdlib Require Import QArith Qround Qminmax ZArith List String Bool Lia Lqa.
From Stdlib Require Import NArith Ascii DecimalString.
Import ListNotations.

Open Scope Q_scope.

(** ** [src/types.ts] *)

Inductive AssetType := image | video.

Inductive AspectRatio := AR_16_9 | AR_9_16.

Module Asset.
Record t := mk { id : string; type : AssetType; url : string }.
End Asset.

Module GeneratedContent.
Record t := mk {
  audioUrl : option string;
  assets : list Asset.t;
  aspectRatio : AspectRatio
}.
End GeneratedContent.

(** ** Decoded media handles *)

Module HTMLImageElement.
Record t := mk { width : Z; height : Z }.
End HTMLImageElement.

Module HTMLVideoElement.
(** [duration = None] is the [NaN] of a clip whose length is unknown. *)
Record t := mk {
  videoWidth : Z;
  videoHeight : Z;
  duration : option Q;
  currentTime : Q
}.
End HTMLVideoElement.

Inductive Element :=
| Img (i : HTMLImageElement.t)
| Vid (v : HTMLVideoElement.t).

(** ** Results of running a piece of the program *)

Inductive Error :=
| MkError (message : string)   (* [new Error(message)] *)
| TypeError                    (* property read on [undefined], non-finite seek *)
| LoadError (url : string)     (* [onerror] of an element being loaded *)
| AudioError                   (* [new AudioContext] threw, or [fetch] or
                                  [decodeAudioData] rejected *)
| RecorderError.               (* the capture stream or the recorder could not
                                  be made, or [recorder.start] threw *)

Inductive Completion (A : Type) :=
| Normal (a : A)
| Throw (e : Error)
| OutOfFuel.

Arguments Normal {A} a.
Arguments Throw {A} e.
Arguments OutOfFuel {A}.

(** ** Truthiness and comparisons on numbers *)

Definition Qlt_bool (x y : Q) : bool := negb (Qle_bool y x).

(** [x || d] on numbers: [NaN] and [0] are falsy. *)
Definition or_default (x : option Q) (d : Q) : Q :=
  match x with
  | Some q => if Qeq_bool q 0 then d else q
  | None => d
  end.

(** Truncation toward zero, and the remainder [a % b] it defines.  The
    remainder of a division by zero is [NaN], here [None]. *)
Definition Qtrunc (x : Q) : Z :=
  if Qle_bool 0 x then Qfloor x else Qceiling x.

Definition js_rem (a b : Q) : option Q :=
  if Qeq_bool b 0 then None
  else Some (a - b * inject_Z (Qtrunc (a / b))).

(** ** The timeline of [renderVideoBlob] *)

Module Timeline.
(** One entry of the [timeline] array.  [element] is the handle of the
    decoded media: its index in [loadedAssets], so that occurrences of
    one asset share one handle. *)
Record item := mk {
  assetIndex : nat;
  start : Q;
  end_ : Q;
  type : AssetType;
  element : nat;
  duration : Q
}.
End Timeline.

Definition elementDuration (e : Element) : option Q :=
  match e with
  | Vid v => HTMLVideoElement.duration v
  | Img _ => None
  end.

Section Builder.

Variable assets : list Asset.t.
Variable loadedAssets : list Element.
Variable totalDuration : Q.

(** The body of the [while] loop up to the value of [duration]. *)
Definition occurrenceDuration (assetIdx : nat) : Completion (Asset.t * nat * Q) :=
  match nth_error assets (assetIdx mod List.length assets) with
  | None => Throw TypeError
  | Some asset =>
      let element := (assetIdx mod List.length loadedAssets)%nat in
      match Asset.type asset with
      | image => Normal (asset, element, 5)
      | video =>
          match nth_error loadedAssets element with
          | None => Throw TypeError
          | Some e => Normal (asset, element, or_default (elementDuration e) 5)
          end
      end
  end.

(** [while (cursor < totalDuration) { ... }], with the loop variables as
    arguments. *)
Fixpoint buildLoop (fuel : nat) (timeline : list Timeline.item)
         (cursor : Q) (assetIdx : nat) : Completion (list Timeline.item) :=
  if Qlt_bool cursor totalDuration then
    match fuel with
    | O => OutOfFuel
    | S fuel' =>
        match occurrenceDuration assetIdx with
        | Normal (asset, element, duration) =>
            buildLoop fuel'
              (timeline ++ [Timeline.mk assetIdx cursor (cursor + duration)
                              (Asset.type asset) element duration])
              (cursor + duration) (S assetIdx)
        | Throw e => Throw e
        | OutOfFuel => OutOfFuel
        end
    end
  else Normal timeline.

Definition buildTimeline (fuel : nat) : Completion (list Timeline.item) :=
  buildLoop fuel [] 0 0%nat.

End Builder.

(** ** The canvas, the recorder and the decoded handles *)

Module Blob.
Record t := mk { bytes : list Byte.byte; type : string }.
Definition size (b : t) : nat := List.length (bytes b).
(** [new Blob(parts, { type })] *)
Definition make (parts : list t) (ty : string) : t :=
  mk (List.concat (map bytes parts)) ty.
End Blob.

(** What the program does to the objects around it, in the order it does
    it.  A [drawImage] carries the source as it is when sampled: for a
    video, with the [currentTime] it has been sought to. *)
Inductive Effect :=
| recorder_start
| sourceNode_start
| fillRect (fillStyle : string) (x y w h : Q)
| drawImage (source : Element) (dx dy dw dh : Q)
| requestAnimationFrame
| recorder_stop
| audioCtx_close.

Module World.
Record t := mk {
  loadedAssets : list Element;   (* the decoded handles, mutable *)
  trace : list Effect;
  chunks : list Blob.t
}.
End World.

Definition emit (e : Effect) (w : World.t) : World.t :=
  World.mk (World.loadedAssets w) (World.trace w ++ [e]) (World.chunks w).

Fixpoint update {A : Type} (l : list A) (n : nat) (f : A -> A) : list A :=
  match l, n with
  | [], _ => []
  | x :: l', O => f x :: l'
  | x :: l', S n' => x :: update l' n' f
  end.

(** The handle [e] after [e.currentTime = t].  On an image the assignment
    creates a property that nothing reads. *)
Definition withCurrentTime (t : Q) (e : Element) : Element :=
  match e with
  | Vid v => Vid (HTMLVideoElement.mk (HTMLVideoElement.videoWidth v)
                    (HTMLVideoElement.videoHeight v)
                    (HTMLVideoElement.duration v) t)
  | Img i => Img i
  end.

(** [vid.currentTime = t] on the handle [element]. *)
Definition setCurrentTime (element : nat) (t : Q) (w : World.t) : Completion World.t :=
  match nth_error (World.loadedAssets w) element with
  | None => Throw TypeError
  | Some _ =>
      Normal (World.mk (update (World.loadedAssets w) element (withCurrentTime t))
                (World.trace w) (World.chunks w))
  end.

(** [img instanceof HTMLVideoElement ? img.videoWidth : img.width], and
    the same for the height. *)
Definition naturalWidth (img : Element) : Z :=
  match img with
  | Vid v => HTMLVideoElement.videoWidth v
  | Img i => HTMLImageElement.width i
  end.

Definition naturalHeight (img : Element) : Z :=
  match img with
  | Vid v => HTMLVideoElement.videoHeight v
  | Img i => HTMLImageElement.height i
  end.

(** ** [drawImageContain]

    [cw] and [ch] are the canvas dimensions.  Division is the one of [Q]:
    it agrees with JavaScript's wherever the divisor is not zero, which is
    the case for the canvas of [renderVideoBlob]. *)
Definition drawImageContain (w : World.t) (element : nat) (cw ch : Q)
  : Completion World.t :=
  match nth_error (World.loadedAssets w) element with
  | None => Throw TypeError
  | Some img =>
      let imgWidth := naturalWidth img in
      let imgHeight := naturalHeight img in
      if ((imgWidth =? 0)%Z || (imgHeight =? 0)%Z)%bool then Normal w
      else
        let imgAspect := inject_Z imgWidth / inject_Z imgHeight in
        let canvasAspect := cw / ch in
        if Qlt_bool canvasAspect imgAspect then
          let renderW := cw in
          let renderH := cw / imgAspect in
          let offsetX := 0 in
          let offsetY := (ch - renderH) / 2 in
          Normal (emit (drawImage img offsetX offsetY renderW renderH) w)
        else
          let renderH := ch in
          let renderW := ch * imgAspect in
          let offsetY := 0 in
          let offsetX := (cw - renderW) / 2 in
          Normal (emit (drawImage img offsetX offsetY renderW renderH) w)
  end.

(** ** [renderLoop] *)

Definition bind {A B : Type} (c : Completion A) (k : A -> Completion B)
  : Completion B :=
  match c with
  | Normal a => k a
  | Throw e => Throw e
  | OutOfFuel => OutOfFuel
  end.

Notation "x <- c ;; k" := (bind c (fun x => k))
  (at level 61, c at next level, right associativity).

Section RenderLoop.

Variable timeline : list Timeline.item.
Variable totalDuration : Q.
Variable canvas_width canvas_height : Q.

Definition isActive (elapsed : Q) (t : Timeline.item) : bool :=
  Qle_bool (Timeline.start t) elapsed && Qlt_bool elapsed (Timeline.end_ t).

(** [timeline.find(...) || timeline[timeline.length-1]] *)
Definition activeItem (elapsed : Q) : option Timeline.item :=
  match find (isActive elapsed) timeline with
  | Some t => Some t
  | None => nth_error timeline (List.length timeline - 1)
  end.

(** One call of [renderLoop] at the clock reading [elapsed].  The
    boolean tells whether another frame was requested. *)
Definition renderLoop (w : World.t) (elapsed : Q) : Completion (World.t * bool) :=
  if Qle_bool totalDuration elapsed then
    Normal (emit recorder_stop w, false)
  else
    w' <- match activeItem elapsed with
          | Some activeItem =>
              let w1 := emit (fillRect "#000000" 0 0 canvas_width canvas_height) w in
              match Timeline.type activeItem with
              | image =>
                  drawImageContain w1 (Timeline.element activeItem)
                    canvas_width canvas_height
              | video =>
                  match js_rem (elapsed - Timeline.start activeItem)
                          (Timeline.duration activeItem) with
                  | None => Throw TypeError
                  | Some vidTime =>
                      w2 <- setCurrentTime (Timeline.element activeItem) vidTime w1 ;;
                      drawImageContain w2 (Timeline.element activeItem)
                        canvas_width canvas_height
                  end
              end
          | None => Normal w
          end ;;
    Normal (emit requestAnimationFrame w', true).

(** The calls of [renderLoop] for the successive readings of the audio
    clock, until one of them stops the recorder.  The boolean is [true]
    when the readings ran out while a frame was still requested. *)
Fixpoint frames (w : World.t) (clock : list Q) : Completion (World.t * bool) :=
  match clock with
  | [] => Normal (w, true)
  | elapsed :: clock' =>
      r <- renderLoop w elapsed ;;
      if snd r then frames (fst r) clock' else Normal r
  end.

End RenderLoop.

(** ** [loadAsset] and [renderVideoBlob] *)

Module Browser.
(** Whether the canvas and the narration can be recorded.  Between the
    decoding of the narration and the first call of [renderLoop] the
    program wires the audio graph, calls [canvas.captureStream(30)],
    [new MediaStream], [new MediaRecorder(..., {mimeType: 'video/webm'})]
    and [recorder.start()]; each of them can throw, for instance where
    WebM recording is not supported, and then [renderLoop] is never
    called. *)
Inductive Recording :=
| NotSupported
  (* one of them throws *)
| Readings (clock : list Q).
  (* none throws: [audioCtx.currentTime - startTime] at each call of
     [renderLoop] *)

(** What the program finds around it during one call. *)
Record t := mk {
  (* natural width and height, and duration, of the media at a URL;
     [None] when it cannot be loaded *)
  media : string -> option (Z * Z * option Q);
  canvasContext : bool;            (* [getContext('2d')] is not null *)
  (* duration of the decoded track; [None] when the audio context cannot
     be created or the track cannot be fetched or decoded *)
  audio : string -> option Q;
  recording : Recording;
  recorded : list Blob.t           (* [e.data] of the [dataavailable] events, in arrival order *)
}.

(** The readings of the audio clock, one for each call of [renderLoop]:
    none when the recorder could not be started. *)
Definition clock (b : t) : list Q :=
  match recording b with
  | NotSupported => []
  | Readings clock => clock
  end.
(** Error events of the recorder are not modelled. *)
End Browser.

Definition loadAsset (b : Browser.t) (asset : Asset.t) : Completion Element :=
  match Browser.media b (Asset.url asset) with
  | None => Throw (LoadError (Asset.url asset))
  | Some (w, h, d) =>
      match Asset.type asset with
      | video => Normal (Vid (HTMLVideoElement.mk w h d 0))
      | image => Normal (Img (HTMLImageElement.mk w h))
      end
  end.

(** [Promise.all(content.assets.map(loadAsset))].  When several assets
    fail, the browser rejects with the error of the one that fails first
    in time; here it is the first in the order of the list. *)
Fixpoint loadAll (b : Browser.t) (l : list Asset.t) : Completion (list Element) :=
  match l with
  | [] => Normal []
  | a :: l' =>
      e <- loadAsset b a ;;
      es <- loadAll b l' ;;
      Normal (e :: es)
  end.

(** [recorder.ondataavailable] *)
Definition ondataavailable (w : World.t) (data : Blob.t) : World.t :=
  if (0 <? Blob.size data)%nat
  then World.mk (World.loadedAssets w) (World.trace w) (World.chunks w ++ [data])
  else w.

(** [recorder.onstop] *)
Definition onstop (w : World.t) : World.t * Blob.t :=
  let blob := Blob.make (World.chunks w) "video/webm" in
  (emit audioCtx_close w, blob).

Inductive Promise :=
| Resolved (blob : Blob.t)
| Rejected (e : Error)
| Pending       (* frames are still being requested *)
| Hung.         (* the timeline loop did not end within the fuel *)

Definition falsy (s : option string) : bool :=
  match s with
  | None => true
  | Some s => (String.length s =? 0)%nat
  end.

Definition canvasSize (ar : AspectRatio) : Z * Z :=
  let isPortrait := match ar with AR_9_16 => true | AR_16_9 => false end in
  let width := if isPortrait then 1080%Z else 1920%Z in
  let height := if isPortrait then 1920%Z else 1080%Z in
  (width, height).

Definition initialWorld : World.t := World.mk [] [] [].

Definition renderVideoBlob (fuel : nat) (b : Browser.t) (content : GeneratedContent.t)
  : World.t * Promise :=
  let assets := GeneratedContent.assets content in
  if (falsy (GeneratedContent.audioUrl content)
      || (List.length assets =? 0)%nat)%bool
  then (initialWorld, Rejected (MkError "Missing content"))
  else
    let '(width, height) := canvasSize (GeneratedContent.aspectRatio content) in
    if negb (Browser.canvasContext b)
    then (initialWorld, Rejected (MkError "No canvas context"))
    else
      match loadAll b assets with
      | Throw e => (initialWorld, Rejected e)
      | OutOfFuel => (initialWorld, Hung)
      | Normal loadedAssets =>
          let audioUrl :=
            match GeneratedContent.audioUrl content with Some u => u | None => EmptyString end in
          match Browser.audio b audioUrl with
          | None => (initialWorld, Rejected AudioError)
          | Some totalDuration =>
              let w0 := World.mk loadedAssets [] [] in
              match Browser.recording b with
              | Browser.NotSupported =>
                  (* what the creation of the capture stream or of the
                     recorder, or [recorder.start()], throws rejects the
                     promise before anything is recorded *)
                  (w0, Rejected RecorderError)
              | Browser.Readings clock =>
              let w1 := emit sourceNode_start (emit recorder_start w0) in
              match buildTimeline assets loadedAssets totalDuration fuel with
              | OutOfFuel => (w1, Hung)
              | Throw e => (w1, Rejected e)
              | Normal timeline =>
                  let tick := renderLoop timeline totalDuration
                                (inject_Z width) (inject_Z height) in
                  let stopped w :=
                    let w3 := fold_left ondataavailable (Browser.recorded b) w in
                    let '(w4, blob) := onstop w3 in
                    (w4, Resolved blob) in
                  match clock with
                  | [] => (w1, Pending)
                  | elapsed :: clock' =>
                      (* the first call is made by the promise executor:
                         what it throws rejects the promise (the effects
                         of a call that throws are not kept) *)
                      match tick w1 elapsed with
                      | OutOfFuel => (w1, Hung)
                      | Throw e => (w1, Rejected e)
                      | Normal (w2, false) => stopped w2
                      | Normal (w2, true) =>
                          (* the later ones are animation-frame callbacks:
                             what they throw is lost and the promise stays
                             pending *)
                          match frames timeline totalDuration
                                  (inject_Z width) (inject_Z height) w2 clock' with
                          | OutOfFuel => (w2, Hung)
                          | Throw e => (w2, Pending)
                          | Normal (w3, true) => (w3, Pending)
                          | Normal (w3, false) => stopped w3
                          end
                      end
                  end
              end
              end
          end
      end.

(** The clear at the start of a call of [renderLoop]. *)
Definition blackClear (cw ch : Q) : Effect := fillRect "#000000" 0 0 cw ch.

(** ** Properties of a timeline *)

(** A decoded clip never reports a negative duration. *)
Definition wf_element (e : Element) : Prop :=
  match elementDuration e with
  | Some d => 0 <= d
  | None => True
  end.

(** [loadedAssets] holds one handle per asset, as [Promise.all] returns
    them. *)
Definition wellLoaded (assets : list Asset.t) (loadedAssets : list Element) : Prop :=
  List.length loadedAssets = List.length assets /\ Forall wf_element loadedAssets.

Definition spans (t : Timeline.item) (x : Q) : Prop :=
  Timeline.start t <= x /\ x < Timeline.end_ t.

(** Each segment ends where the next one starts. *)
Definition contiguous (timeline : list Timeline.item) : Prop :=
  forall l1 a b l2, timeline = l1 ++ a :: b :: l2 ->
    Timeline.end_ a = Timeline.start b.

(** No instant belongs to two segments at different positions. *)
Definition nonOverlapping (timeline : list Timeline.item) : Prop :=
  forall i j a b x,
    nth_error timeline i = Some a -> nth_error timeline j = Some b ->
    spans a x -> spans b x -> i = j.

Definition covers (timeline : list Timeline.item) (totalDuration : Q) : Prop :=
  forall x, 0 <= x -> x < totalDuration ->
    exists t, In t timeline /\ spans t x.

(** [chain c l]: the segments of [l] follow one another from the instant
    [c], each as long as its [duration], which is positive. *)
Fixpoint chain (c : Q) (l : list Timeline.item) : Prop :=
  match l with
  | [] => True
  | t :: l' =>
      Timeline.start t = c /\
      Timeline.end_ t = c + Timeline.duration t /\
      0 < Timeline.duration t /\
      chain (Timeline.end_ t) l'
  end.

Fixpoint chainEnd (c : Q) (l : list Timeline.item) : Q :=
  match l with
  | [] => c
  | t :: l' => chainEnd (Timeline.end_ t) l'
  end.

(** The shortest duration an occurrence can get. *)
Definition minDuration (loadedAssets : list Element) : Q :=
  fold_right (fun e m => Qmin (or_default (elementDuration e) 5) m) 5 loadedAssets.

(** Fuel that is enough for the loop. *)
Definition enoughFuel (loadedAssets : list Element) (totalDuration : Q) : nat :=
  Z.to_nat (Qceiling (totalDuration / minDuration loadedAssets)).

(** The [while] loop without its accumulator. *)
Fixpoint segments (assets : list Asset.t) (loadedAssets : list Element)
         (totalDuration : Q) (fuel : nat) (cursor : Q) (assetIdx : nat)
  : Completion (list Timeline.item) :=
  if Qlt_bool cursor totalDuration then
    match fuel with
    | O => OutOfFuel
    | S fuel' =>
        match occurrenceDuration assets loadedAssets assetIdx with
        | Normal (asset, element, duration) =>
            match segments assets loadedAssets totalDuration fuel'
                    (cursor + duration) (S assetIdx) with
            | Normal l =>
                Normal (Timeline.mk assetIdx cursor (cursor + duration)
                          (Asset.type asset) element duration :: l)
            | r => r
            end
        | Throw e => Throw e
        | OutOfFuel => OutOfFuel
        end
    end
  else Normal [].

(** ** Properties of a run *)

(** The chunks that [ondataavailable] keeps. *)
Definition nonEmpty (d : Blob.t) : bool := (0 <? Blob.size d)%nat.

(** The recorder has not been stopped. *)
Definition running (w : World.t) : Prop := ~ In recorder_stop (World.trace w).

(** ** Sample inputs *)

Definition anImage : Asset.t := Asset.mk "a1" image "blob:a1".
Definition aVideo : Asset.t := Asset.mk "v1" video "blob:v1".
Definition imageEl : Element := Img (HTMLImageElement.mk 1024 768).
Definition videoEl (d : option Q) : Element :=
  Vid (HTMLVideoElement.mk 1280 720 d 0).
Definition blankEl : Element := Img (HTMLImageElement.mk 0 0).

Definition sampleContent : GeneratedContent.t :=
  GeneratedContent.mk (Some "blob:narration"%string) [anImage] AR_16_9.

Definition emptyContent : GeneratedContent.t :=
  GeneratedContent.mk (Some "blob:narration"%string) [] AR_16_9.

(** A browser in which every URL holds a 1024x768 picture, the narration
    lasts [audioDuration] seconds, and the recorder delivers [recorded]. *)
Definition sampleBrowser (audioDuration : Q) (clock : list Q)
           (recorded : list Blob.t) : Browser.t :=
  Browser.mk (fun _ => Some (1024%Z, 768%Z, None)) true
    (fun _ => Some audioDuration) (Browser.Readings clock) recorded.

Definition someChunk : Blob.t := Blob.mk [Byte.x1a; Byte.x45] "video/webm"%string.
Definition emptyChunk : Blob.t := Blob.mk [] "video/webm"%string.

(** The timeline of one image against 12 seconds of audio. *)
Definition threeOccurrences : list Timeline.item :=
  [Timeline.mk 0 0 5 image 0 5;
   Timeline.mk 1 5 10 image 0 5;
   Timeline.mk 2 10 15 image 0 5].

(** The timeline of one 7-second clip against 12 seconds of audio. *)
Definition loopedClip : list Timeline.item :=
  [Timeline.mk 0 0 7 video 0 7; Timeline.mk 1 7 14 video 0 7].


Definition pictureWorld : World.t := World.mk [imageEl] [] [].

Definition blankWorld : World.t := World.mk [blankEl] [] [].

(** ** Properties of a render pass *)

(** A timeline entry that [renderLoop] can draw from [n] handles. *)
Definition itemOk (n : nat) (t : Timeline.item) : Prop :=
  (Timeline.element t < n)%nat /\ ~ Timeline.duration t == 0.

(** What one call of [renderLoop] leaves in the trace while the narration
    plays: the black clear, at most one frame, and the request for the
    next call. *)
Definition isFrame (cw ch : Q) (l : list Effect) : Prop :=
  l = [blackClear cw ch; requestAnimationFrame] \/
  exists img dx dy dw dh,
    l = [blackClear cw ch; drawImage img dx dy dw dh; requestAnimationFrame].

(** The rectangle [offsetX, offsetY, renderW, renderH] that
    [drawImageContain] computes for a frame of aspect [imgAspect]. *)
Definition containRect (imgAspect cw ch : Q) : Q * Q * Q * Q :=
  if Qlt_bool (cw / ch) imgAspect
  then (0, (ch - cw / imgAspect) / 2, cw, cw / imgAspect)
  else ((cw - ch * imgAspect) / 2, 0, ch * imgAspect, ch).

(** The guards of [renderVideoBlob] let the call through. *)
Definition passes (b : Browser.t) (content : GeneratedContent.t) : Prop :=
  falsy (GeneratedContent.audioUrl content) = false /\
  GeneratedContent.assets content <> [] /\
  Browser.canvasContext b = true.

(** The URL that [fetch] is given. *)
Definition narrationUrl (content : GeneratedContent.t) : string :=
  match GeneratedContent.audioUrl content with Some u => u | None => EmptyString end.

(** No clip in the browser reports a negative duration. *)
Definition soundDurations (b : Browser.t) : Prop :=
  forall u w h d, Browser.media b u = Some (w, h, Some d) -> 0 <= d.

(** ** The preview slideshow of [ProductionMonitor]

    The state of the component that the preview uses, and its handlers.
    [content.assets] is a property of the component: it is an argument. *)

Module Preview.
Record t := mk { isPlaying : bool; currentAssetIndex : nat }.
End Preview.

Inductive PreviewEvent :=
| intervalFired                (* the 5000 ms interval of the slideshow effect *)
| videoEnded                   (* [onEnded] of the preview video *)
| audioEnded                   (* [onEnded] of the narration *)
| previewToggled               (* click on the play / pause button *)
| thumbnailClicked (idx : nat). (* click on the thumbnail of [content.assets.map] *)

(** [content.assets[currentAssetIndex]] *)
Definition currentAsset (assets : list Asset.t) (s : Preview.t) : option Asset.t :=
  nth_error assets (Preview.currentAssetIndex s).

(** The slideshow effect sets its interval when
    [isPlaying && content.assets.length > 0] and
    [currentAsset && currentAsset.type === 'image']. *)
Definition intervalArmed (assets : list Asset.t) (s : Preview.t) : bool :=
  Preview.isPlaying s && (0 <? List.length assets)%nat &&
  match currentAsset assets s with
  | Some a => match Asset.type a with image => true | video => false end
  | None => false
  end.

(** The preview, with its audio element and its button, is rendered when
    [content.assets.length > 0 && currentAsset]. *)
Definition mediaShown (assets : list Asset.t) (s : Preview.t) : bool :=
  (0 <? List.length assets)%nat &&
  match currentAsset assets s with Some _ => true | None => false end.

(** [prev => (prev + 1) % content.assets.length]; the list is not empty
    where this is evaluated. *)
Definition nextAsset (assets : list Asset.t) (s : Preview.t) : Preview.t :=
  Preview.mk (Preview.isPlaying s)
    ((Preview.currentAssetIndex s + 1) mod List.length assets).

Definition handleAudioEnded (s : Preview.t) : Preview.t := Preview.mk false 0.

Definition handleVideoAssetEnded (assets : list Asset.t) (s : Preview.t) : Preview.t :=
  if Preview.isPlaying s then nextAsset assets s else s.

(** [audioRef.current] is the audio element of the preview. *)
Definition togglePreview (assets : list Asset.t) (s : Preview.t) : Preview.t :=
  if mediaShown assets s
  then Preview.mk (negb (Preview.isPlaying s)) (Preview.currentAssetIndex s)
  else s.

(** The preview video is rendered when the current asset is a video. *)
Definition videoShown (assets : list Asset.t) (s : Preview.t) : bool :=
  mediaShown assets s &&
  match currentAsset assets s with
  | Some a => match Asset.type a with video => true | image => false end
  | None => false
  end.

(** What an event does to the preview.  The interval fires only while it
    is set, and an element that is not rendered sends no event. *)
Definition previewStep (assets : list Asset.t) (s : Preview.t) (e : PreviewEvent)
  : Preview.t :=
  match e with
  | intervalFired => if intervalArmed assets s then nextAsset assets s else s
  | videoEnded => if videoShown assets s then handleVideoAssetEnded assets s else s
  | audioEnded => if mediaShown assets s then handleAudioEnded s else s
  | previewToggled => togglePreview assets s
  | thumbnailClicked idx =>
      if (idx <? List.length assets)%nat
      then Preview.mk (Preview.isPlaying s) idx
      else s
  end.

(** The effect on [content.assets]: an index left out of bounds by a new
    list goes back to 0. *)
Definition assetsChanged (assets : list Asset.t) (s : Preview.t) : Preview.t :=
  if ((List.length assets <=? Preview.currentAssetIndex s)%nat
      && (0 <? List.length assets)%nat)%bool
  then Preview.mk (Preview.isPlaying s) 0
  else s.

(** ** File names of the downloads

    A JavaScript string is the list of its UTF-16 code units. *)

Definition codeUnits (s : string) : list N :=
  map N_of_ascii (list_ascii_of_string s).

(** The code units that [/[^a-z0-9]/gi] does not match: without the [u]
    flag, ignoring case adds to [a-z0-9] the letters [A-Z] and no code
    unit above 127. *)
Definition isAlnum (c : N) : bool :=
  ((48 <=? c) && (c <=? 57) || (65 <=? c) && (c <=? 90)
   || (97 <=? c) && (c <=? 122))%N%bool.

Definition underscore : N := 95.

(** [s.replace(/[^a-z0-9]/gi, '_')] *)
Definition sanitize (s : list N) : list N :=
  map (fun c => if isAlnum c then c else underscore) s.

(** [s.toLowerCase()] for a string of code units below 128, which is what
    [sanitize] returns. *)
Definition toLowerCase (s : list N) : list N :=
  map (fun c => if ((65 <=? c) && (c <=? 90))%N%bool then (c + 32)%N else c) s.

(** [s || d] on strings: the empty string is falsy. *)
Definition orString (s d : list N) : list N :=
  match s with [] => d | _ => s end.

(** The [filename] of [handleDownloadVideo], and the name it downloads
    under. *)
Definition videoStem (title : list N) : list N :=
  toLowerCase (sanitize (orString title (codeUnits "news_video"))).

Definition videoFileName (title : list N) : list N :=
  videoStem title ++ codeUnits ".webm".

(** The name under which [downloadThumbnail] downloads. *)
Definition thumbnailStem (title : list N) : list N :=
  firstn 20 (sanitize (orString title (codeUnits "news"))).

Definition thumbnailFileName (title : list N) : list N :=
  codeUnits "thumbnail_" ++ thumbnailStem title ++ codeUnits ".jpg".

Definition isLowerAlnum (c : N) : bool :=
  ((48 <=? c) && (c <=? 57) || (97 <=? c) && (c <=? 122))%N%bool.

(** ** The component across changes of its assets *)

Inductive MonitorInput :=
| assetsReplaced (assets : list Asset.t)   (* a render with a new [content.assets] *)
| happened (e : PreviewEvent).

(** The assets the component was last rendered with, and its preview. *)
Definition monitorStep (st : list Asset.t * Preview.t) (i : MonitorInput)
  : list Asset.t * Preview.t :=
  match i with
  | assetsReplaced assets => (assets, assetsChanged assets (snd st))
  | happened e => (fst st, previewStep (fst st) (snd st) e)
  end.

(** [useState(false)] and [useState(0)] *)
Definition initialPreview : Preview.t := Preview.mk false 0.

(** ** The download and upload buttons *)

Inductive UIEffect :=
| saved (download : list N) (blob : Blob.t)   (* [a.download = ...; a.click()] *)
| onPublish (blob : Blob.t)
| alert (message : string).

Module Buttons.
Record t := mk { isProcessingVideo : bool; effects : list UIEffect }.
End Buttons.

(** [handleDownloadVideo], from the promise of [renderVideoBlob].  The
    flag is set before the [await], which does not return when the promise
    does not settle. *)
Definition handleDownloadVideo (title : list N) (outcome : Promise) (s : Buttons.t)
  : Buttons.t :=
  match outcome with
  | Resolved blob =>
      Buttons.mk false (Buttons.effects s ++ [saved (videoFileName title) blob])
  | Rejected _ => Buttons.mk false (Buttons.effects s ++ [alert "Render failed"])
  | Pending | Hung => Buttons.mk true (Buttons.effects s)
  end.

(** [handlePublishClick]: the flag is cleared in the [catch] only. *)
Definition handlePublishClick (outcome : Promise) (s : Buttons.t) : Buttons.t :=
  match outcome with
  | Resolved blob => Buttons.mk true (Buttons.effects s ++ [onPublish blob])
  | Rejected _ =>
      Buttons.mk false
        (Buttons.effects s ++ [alert "Could not render video for upload."])
  | Pending | Hung => Buttons.mk true (Buttons.effects s)
  end.

Inductive Button := downloadButton | uploadButton.

(** A click, with the browser the render pass then runs in.  Both buttons
    have [disabled={isProcessingVideo}]. *)
Definition click (title : list N) (content : GeneratedContent.t) (s : Buttons.t)
           (c : Button * nat * Browser.t) : Buttons.t :=
  let '(button, fuel, b) := c in
  if Buttons.isProcessingVideo s then s
  else
    let outcome := snd (renderVideoBlob fuel b content) in
    match button with
    | downloadButton => handleDownloadVideo title outcome s
    | uploadButton => handlePublishClick outcome s
    end.

(** ** The upload that [onPublish] starts

    [handlePublish] of the application and [uploadVideoToYouTube] of the
    YouTube service.  Of the application's state, its logs and its archive
    are left out. *)

(** [ViewType] of the application *)
Inductive ViewType := dashboard | archive.

Inductive AppState :=
| IDLE | FETCHING_NEWS | GENERATING_SCRIPT | GENERATING_AUDIO
| GENERATING_ASSETS | GENERATING_VEO | GENERATING_METADATA
| GENERATING_THUMBNAIL | READY_TO_PUBLISH | PUBLISHING | PUBLISHED.

Module YouTubeChannel.
Record t := mk {
  name : string;
  handle : string;
  avatarUrl : string;
  accessToken : string
}.
End YouTubeChannel.

Module Metadata.
Record t := mk { title : list N; description : list N; tags : list (list N) }.
End Metadata.

(** The [snippet] of the request that starts the upload. *)
Definition snippet (m : Metadata.t) : Metadata.t :=
  Metadata.mk (firstn 100 (Metadata.title m))
    (firstn 5000 (Metadata.description m))
    (firstn 50 (Metadata.tags m)).

(** What the network answers to the two requests of an upload. *)
Inductive InitResponse :=
| fetchFailed (message : string)      (* [fetch] rejects *)
| responded (ok : bool) (text : string) (location : option string).

Inductive PutEvent :=
| loaded (status : nat) (responseText : string) (parses : bool)
    (* [onload]; [parses]: [JSON.parse(xhr.response)] returns *)
| networkError                         (* [onerror] *)
| noEvent.

Module Network.
Record t := mk { init : InitResponse; put : PutEvent }.
End Network.

Inductive UploadResult :=
| uploadResolved
| uploadRejected (message : string)
| uploadPending.

Definition uploadVideoToYouTube (net : Network.t) : UploadResult :=
  match Network.init net with
  | fetchFailed message => uploadRejected message
  | responded ok text location =>
      if negb ok
      then uploadRejected ("Failed to initiate upload: " ++ text)
      else if falsy location
      then uploadRejected "No upload location header received from YouTube"
      else
        match Network.put net with
        | loaded status responseText parses =>
            if ((200 <=? status) && (status <? 300))%nat
            then if parses then uploadResolved else uploadPending
            else uploadRejected
                   ("Upload failed with status "
                    ++ NilZero.string_of_uint (Nat.to_uint status)
                    ++ ": " ++ responseText)
        | networkError => uploadRejected "Network error during upload"
        | noEvent => uploadPending
        end
  end.

Module UploadRequest.
Record t := mk { token : string; video : Blob.t; body : Metadata.t }.
End UploadRequest.

Module App.
Record t := mk {
  appState : AppState;
  connectedChannel : option YouTubeChannel.t;
  isChannelModalOpen : bool;
  metadata : Metadata.t;                 (* [generatedContent.metadata] *)
  requests : list UploadRequest.t;       (* the uploads started *)
  currentView : ViewType
}.
End App.

Definition handlePublish (net : Network.t) (videoBlob : Blob.t) (s : App.t) : App.t :=
  match App.connectedChannel s with
  | None =>
      App.mk (App.appState s) None true (App.metadata s) (App.requests s)
        (App.currentView s)
  | Some channel =>
      let requests :=
        App.requests s
        ++ [UploadRequest.mk (YouTubeChannel.accessToken channel) videoBlob
              (snippet (App.metadata s))] in
      let next :=
        match uploadVideoToYouTube net with
        | uploadResolved => PUBLISHED
        | uploadRejected _ => READY_TO_PUBLISH
        | uploadPending => PUBLISHING
        end in
      App.mk next (Some channel) (App.isChannelModalOpen s) (App.metadata s) requests
        (App.currentView s)
  end.

(** The application renders [ProductionMonitor] in the dashboard view, in
    every state but IDLE and FETCHING_NEWS; the archive and the landing
    page take its place otherwise. *)
Definition monitorMounted (s : App.t) : bool :=
  match App.currentView s with
  | archive => false
  | dashboard =>
      match App.appState s with
      | IDLE | FETCHING_NEWS => false
      | _ => true
      end
  end.

(** The two buttons are rendered in these states. *)
Definition buttonsShown (a : AppState) : bool :=
  match a with
  | READY_TO_PUBLISH | GENERATING_THUMBNAIL => true
  | _ => false
  end.

(** A click on the upload button, followed through [onPublish] into the
    application. *)
Definition uploadClick (title : list N) (content : GeneratedContent.t)
           (st : Buttons.t * App.t) (c : nat * Browser.t * Network.t)
  : Buttons.t * App.t :=
  let '(fuel, b, net) := c in
  if (monitorMounted (snd st)
      && buttonsShown (App.appState (snd st))
      && negb (Buttons.isProcessingVideo (fst st)))%bool
  then
    let outcome := snd (renderVideoBlob fuel b content) in
    (handlePublishClick outcome (fst st),
     match outcome with
     | Resolved blob => handlePublish net blob (snd st)
     | _ => snd st
     end)
  else st.

(** What happens to the application while the monitor may be on screen:
    it is rendered with another state (a channel is connected, a view is
    chosen, a production is started or reset ...), or the upload button is
    clicked. *)
Inductive AppInput :=
| appBecomes (app : App.t)
| uploadClicked (fuel : nat) (b : Browser.t) (net : Network.t).

(** [isProcessingVideo] is state of [ProductionMonitor]: it lives as long
    as the component stays mounted, and is [useState(false)] again when the
    component is mounted anew. *)
Definition appStep (title : list N) (content : GeneratedContent.t)
           (st : Buttons.t * App.t) (i : AppInput) : Buttons.t * App.t :=
  match i with
  | appBecomes app =>
      (if (monitorMounted (snd st) && monitorMounted app)%bool
       then fst st
       else Buttons.mk false (Buttons.effects (fst st)),
       app)
  | uploadClicked fuel b net => uploadClick title content st (fuel, b, net)
  end.

(** The monitor is on screen after the input. *)
Definition keepsMounted (i : AppInput) : bool :=
  match i with
  | appBecomes app => monitorMounted app
  | uploadClicked _ _ _ => true
  end.

(** The state the application was last rendered with. *)
Definition lastApp (inputs : list AppInput) (app : App.t) : App.t :=
  fold_left (fun a i => match i with
                        | appBecomes app' => app'
                        | uploadClicked _ _ _ => a
                        end) inputs app.

(** Sample states of the application. *)
Definition aChannel : YouTubeChannel.t :=
  YouTubeChannel.mk "Newsroom" "@newsroom" "https://yt3.example/a.png" "token-1".

Definition someMetadata : Metadata.t :=
  Metadata.mk (codeUnits "Breaking") (codeUnits "Today.") [codeUnits "news"].

Definition readyApp (channel : option YouTubeChannel.t) : App.t :=
  App.mk READY_TO_PUBLISH channel false someMetadata [] dashboard.

(** The archive is opened over it. *)
Definition archivedApp (channel : option YouTubeChannel.t) : App.t :=
  App.mk READY_TO_PUBLISH channel false someMetadata [] archive.

Definition goodNetwork : Network.t :=
  Network.mk (responded true "" (Some "https://upload.example/session"%string))
    (loaded 200 "{}" true).

Definition quotaNetwork : Network.t :=
  Network.mk (responded false "quotaExceeded" None) noEvent.

(** * Proofs *)

(** [lra] does not divide: halving is made a product. *)
Ltac halves := unfold Qdiv; change (/ 2) with (1 # 2).


(** ** Numbers *)

Lemma Qlt_bool_iff (x y : Q) : Qlt_bool x y = true <-> x < y.
Proof.
  unfold Qlt_bool. rewrite negb_true_iff.
  split; intro H.
  - apply Qnot_le_lt. intro Hle. apply Qle_bool_iff in Hle. congruence.
  - destruct (Qle_bool y x) eqn:E; [|reflexivity].
    apply Qle_bool_iff in E. apply Qle_not_lt in E. contradiction.
Qed.

Lemma Qlt_bool_false (x y : Q) : Qlt_bool x y = false <-> y <= x.
Proof.
  unfold Qlt_bool. rewrite negb_false_iff. apply Qle_bool_iff.
Qed.

Lemma Qle_bool_false (x y : Q) : Qle_bool x y = false <-> y < x.
Proof.
  rewrite <- Qlt_bool_iff. unfold Qlt_bool.
  destruct (Qle_bool x y); simpl; split; congruence.
Qed.

Lemma or_default_pos (x : option Q) (d : Q) :
  0 < d -> match x with Some q => 0 <= q | None => True end ->
  0 < or_default x d.
Proof.
  intros Hd Hx. destruct x as [q|]; simpl; [|exact Hd].
  destruct (Qeq_bool q 0) eqn:E; [exact Hd|].
  apply Qeq_bool_neq in E.
  apply Qle_lteq in Hx. destruct Hx as [Hx|Hx]; [exact Hx|].
  exfalso. apply E. symmetry. exact Hx.
Qed.

(** ** Durations of occurrences *)

Lemma minDuration_pos (loadedAssets : list Element) :
  Forall wf_element loadedAssets -> 0 < minDuration loadedAssets.
Proof.
  induction 1 as [|e l He _ IH]; simpl.
  - reflexivity.
  - apply Q.min_glb_lt; [|exact IH].
    apply or_default_pos; [reflexivity|exact He].
Qed.

Lemma minDuration_le_5 (loadedAssets : list Element) :
  minDuration loadedAssets <= 5.
Proof.
  induction loadedAssets as [|e l IH]; simpl.
  - apply Qle_refl.
  - eapply Qle_trans; [apply Q.le_min_r|exact IH].
Qed.

Lemma minDuration_le_In (loadedAssets : list Element) (e : Element) :
  In e loadedAssets ->
  minDuration loadedAssets <= or_default (elementDuration e) 5.
Proof.
  induction loadedAssets as [|e' l IH]; simpl; [contradiction|].
  intros [->|Hin].
  - apply Q.le_min_l.
  - eapply Qle_trans; [apply Q.le_min_r|apply IH, Hin].
Qed.

Section BuilderFacts.

Variable assets : list Asset.t.
Variable loadedAssets : list Element.
Variable totalDuration : Q.

Lemma occurrenceDuration_bounds (assetIdx : nat) asset element d :
  Forall wf_element loadedAssets ->
  occurrenceDuration assets loadedAssets assetIdx = Normal (asset, element, d) ->
  minDuration loadedAssets <= d /\ 0 < d.
Proof.
  intros Hwf H.
  assert (Hm : minDuration loadedAssets <= d).
  { unfold occurrenceDuration in H.
    destruct (nth_error assets _) as [a|]; [|discriminate].
    destruct (Asset.type a).
    - inversion H; subst. apply minDuration_le_5.
    - destruct (nth_error loadedAssets _) as [e|] eqn:E; [|discriminate].
      inversion H; subst. apply minDuration_le_In.
      eapply nth_error_In, E. }
  split; [exact Hm|].
  eapply Qlt_le_trans; [apply minDuration_pos, Hwf|exact Hm].
Qed.

Lemma occurrenceDuration_defined (assetIdx : nat) :
  assets <> [] -> wellLoaded assets loadedAssets ->
  exists asset d,
    occurrenceDuration assets loadedAssets assetIdx
    = Normal (asset, (assetIdx mod List.length loadedAssets)%nat, d) /\
    nth_error assets (assetIdx mod List.length assets) = Some asset.
Proof.
  intros Hne [Hlen _].
  assert (Hpos : (0 < List.length assets)%nat).
  { destruct assets; [congruence|simpl; lia]. }
  unfold occurrenceDuration.
  destruct (nth_error assets (assetIdx mod List.length assets)) as [a|] eqn:Ea.
  2:{ apply nth_error_None in Ea.
      pose proof (Nat.mod_upper_bound assetIdx (List.length assets)). lia. }
  destruct (Asset.type a).
  - eauto.
  - destruct (nth_error loadedAssets _) as [e|] eqn:Ee; [eauto|].
    apply nth_error_None in Ee.
    pose proof (Nat.mod_upper_bound assetIdx (List.length loadedAssets)). lia.
Qed.

Lemma buildLoop_segments (fuel : nat) :
  forall timeline cursor assetIdx,
    buildLoop assets loadedAssets totalDuration fuel timeline cursor assetIdx =
    match segments assets loadedAssets totalDuration fuel cursor assetIdx with
    | Normal l => Normal (timeline ++ l)
    | Throw e => Throw e
    | OutOfFuel => OutOfFuel
    end.
Proof.
  induction fuel as [|fuel IH]; intros timeline cursor assetIdx; simpl.
  - destruct (Qlt_bool cursor totalDuration); [reflexivity|].
    now rewrite app_nil_r.
  - destruct (Qlt_bool cursor totalDuration); [|now rewrite app_nil_r].
    destruct (occurrenceDuration assets loadedAssets assetIdx)
      as [[[asset element] d]|e|]; try reflexivity.
    rewrite IH.
    destruct (segments _ _ _ fuel (cursor + d) (S assetIdx)); try reflexivity.
    now rewrite <- app_assoc.
Qed.

Lemma buildTimeline_segments (fuel : nat) :
  buildTimeline assets loadedAssets totalDuration fuel =
  segments assets loadedAssets totalDuration fuel 0 0.
Proof.
  unfold buildTimeline. rewrite buildLoop_segments.
  now destruct (segments _ _ _ fuel 0 0%nat).
Qed.

(** Two runs that both end build the same timeline, whatever their fuel. *)
Lemma segments_deterministic (fuel : nat) :
  forall fuel' cursor assetIdx l l',
    segments assets loadedAssets totalDuration fuel cursor assetIdx = Normal l ->
    segments assets loadedAssets totalDuration fuel' cursor assetIdx = Normal l' ->
    l = l'.
Proof.
  induction fuel as [|fuel IH]; intros fuel' cursor assetIdx l l' H H';
    destruct fuel' as [|fuel']; simpl in H, H';
    destruct (Qlt_bool cursor totalDuration); try congruence.
  destruct (occurrenceDuration assets loadedAssets assetIdx)
    as [[[asset element] d]|e|]; try discriminate.
  destruct (segments _ _ _ fuel _ _) as [r| |] eqn:E; try discriminate.
  destruct (segments _ _ _ fuel' _ _) as [r'| |] eqn:E'; try discriminate.
  rewrite (IH _ _ _ _ _ E E') in H. congruence.
Qed.

Lemma segments_chain (fuel : nat) :
  Forall wf_element loadedAssets ->
  forall cursor assetIdx l,
    segments assets loadedAssets totalDuration fuel cursor assetIdx = Normal l ->
    chain cursor l /\ totalDuration <= chainEnd cursor l /\
    Forall (fun t => Timeline.start t < totalDuration) l.
Proof.
  intros Hwf.
  induction fuel as [|fuel IH]; intros cursor assetIdx l H; simpl in H;
    destruct (Qlt_bool cursor totalDuration) eqn:Hc; try discriminate.
  - inversion H; subst. simpl. apply Qlt_bool_false in Hc. auto.
  - destruct (occurrenceDuration assets loadedAssets assetIdx)
      as [[[asset element] d]|e|] eqn:Ed; try discriminate.
    destruct (segments _ _ _ fuel _ _) as [r| |] eqn:E; try discriminate.
    inversion H; subst; clear H.
    destruct (IH _ _ _ E) as (Hch & Hend & Hst).
    destruct (occurrenceDuration_bounds _ _ _ _ Hwf Ed) as [_ Hd].
    apply Qlt_bool_iff in Hc.
    simpl. repeat split; auto.
  - inversion H; subst. simpl. apply Qlt_bool_false in Hc. auto.
Qed.

Lemma segments_terminates (fuel : nat) :
  assets <> [] -> wellLoaded assets loadedAssets ->
  forall cursor assetIdx,
    totalDuration - cursor <= inject_Z (Z.of_nat fuel) * minDuration loadedAssets ->
    exists l, segments assets loadedAssets totalDuration fuel cursor assetIdx = Normal l.
Proof.
  intros Hne Hwl.
  pose proof (minDuration_pos _ (proj2 Hwl)) as Hm.
  induction fuel as [|fuel IH]; intros cursor assetIdx Hf; simpl segments;
    destruct (Qlt_bool cursor totalDuration) eqn:Hc; eauto.
  - exfalso. apply Qlt_bool_iff in Hc. simpl in Hf.
    rewrite Qmult_0_l in Hf. lra.
  - destruct (occurrenceDuration_defined assetIdx Hne Hwl) as (asset & d & Ed & _).
    rewrite Ed.
    destruct (occurrenceDuration_bounds _ _ _ _ (proj2 Hwl) Ed) as [Hmd _].
    destruct (IH (cursor + d) (S assetIdx)) as [l Hl].
    + rewrite Nat2Z.inj_succ in Hf. unfold Z.succ in Hf.
      rewrite inject_Z_plus in Hf. change (inject_Z 1) with 1 in Hf.
      remember (inject_Z (Z.of_nat fuel)) as k.
      remember (minDuration loadedAssets) as m.
      lra.
    + rewrite Hl. eauto.
Qed.

Lemma enoughFuel_enough :
  Forall wf_element loadedAssets ->
  totalDuration
  <= inject_Z (Z.of_nat (enoughFuel loadedAssets totalDuration)) * minDuration loadedAssets.
Proof.
  intros Hwf. pose proof (minDuration_pos _ Hwf) as Hm.
  unfold enoughFuel.
  set (m := minDuration loadedAssets) in *.
  pose proof (Qle_ceiling (totalDuration / m)) as Hc.
  assert (Hz : inject_Z (Qceiling (totalDuration / m))
               <= inject_Z (Z.of_nat (Z.to_nat (Qceiling (totalDuration / m))))).
  { rewrite <- Zle_Qle. lia. }
  assert (Hx : totalDuration / m <= inject_Z (Z.of_nat (Z.to_nat (Qceiling (totalDuration / m)))))
    by (eapply Qle_trans; eassumption).
  apply Qle_trans with (totalDuration / m * m).
  - apply Qle_lteq. right. field. lra.
  - apply Qmult_le_compat_r; [exact Hx|lra].
Qed.

End BuilderFacts.

(** ** Loading *)

(** What [Promise.all] resolves with is well loaded, in a browser that
    reports no negative duration. *)
Lemma loadAll_wellLoaded (b : Browser.t) (assets : list Asset.t) :
  (forall u w h d, Browser.media b u = Some (w, h, Some d) -> 0 <= d) ->
  forall loadedAssets,
    loadAll b assets = Normal loadedAssets -> wellLoaded assets loadedAssets.
Proof.
  intros Hb. unfold wellLoaded.
  induction assets as [|a l IH]; intros loadedAssets; simpl.
  - intros [= <-]. split; [reflexivity|constructor].
  - unfold loadAsset.
    destruct (Browser.media b (Asset.url a)) as [[[w h] d]|] eqn:Em; [|discriminate].
    assert (Hwf : forall t0, wf_element (Vid (HTMLVideoElement.mk w h d t0))).
    { intros t0. unfold wf_element; simpl. destruct d as [d|]; [|exact I].
      eapply Hb, Em. }
    destruct (loadAll b l) as [es| |]; [|destruct (Asset.type a); discriminate..].
    destruct (IH es eq_refl) as [Hlen Hall].
    destruct (Asset.type a); simpl; intros [= <-]; simpl;
      (split; [congruence|constructor; [|exact Hall]]).
    + exact I.
    + apply Hwf.
Qed.

(** ** Chains of segments *)

Lemma isActive_iff (x : Q) (t : Timeline.item) :
  isActive x t = true <-> spans t x.
Proof.
  unfold isActive, spans.
  rewrite andb_true_iff, Qle_bool_iff, Qlt_bool_iff. reflexivity.
Qed.

Lemma chain_end_ge (l : list Timeline.item) :
  forall c, chain c l -> c <= chainEnd c l.
Proof.
  induction l as [|t l IH]; intros c H; simpl in *.
  - apply Qle_refl.
  - destruct H as (_ & He & Hd & Hl).
    apply IH in Hl. rewrite He in *. lra.
Qed.

Lemma chain_In (l : list Timeline.item) :
  forall c t, chain c l -> In t l ->
    c <= Timeline.start t /\
    Timeline.start t < Timeline.end_ t /\
    Timeline.end_ t <= chainEnd c l.
Proof.
  induction l as [|t0 l IH]; intros c t H Hin; simpl in *; [contradiction|].
  destruct H as (Hs & He & Hd & Hl).
  destruct Hin as [->|Hin].
  - pose proof (chain_end_ge _ _ Hl). rewrite Hs, He in *. lra.
  - destruct (IH _ _ Hl Hin) as (H1 & H2 & H3).
    rewrite He in *. repeat split; lra.
Qed.

Lemma chain_contiguous (l : list Timeline.item) :
  forall c, chain c l -> contiguous l.
Proof.
  unfold contiguous.
  induction l as [|t l IH]; intros c H l1 a b l2 E.
  - destruct l1; discriminate.
  - simpl in H. destruct H as (_ & _ & _ & Hl).
    destruct l1 as [|t1 l1]; simpl in E; inversion E; subst.
    + simpl in Hl. symmetry. apply Hl.
    + eapply IH; [exact Hl|reflexivity].
Qed.

Lemma chain_nonOverlapping (l : list Timeline.item) :
  forall c, chain c l -> nonOverlapping l.
Proof.
  unfold nonOverlapping, spans.
  induction l as [|t l IH]; intros c H i j a b x Hi Hj Ha Hb.
  - destruct i; discriminate.
  - simpl in H. destruct H as (Hs & He & Hd & Hl).
    destruct i as [|i], j as [|j]; simpl in Hi, Hj.
    + reflexivity.
    + exfalso. inversion Hi; subst.
      apply nth_error_In in Hj.
      destruct (chain_In _ _ _ Hl Hj) as (H1 & _). lra.
    + exfalso. inversion Hj; subst.
      apply nth_error_In in Hi.
      destruct (chain_In _ _ _ Hl Hi) as (H1 & _). lra.
    + f_equal. eapply IH; eauto.
Qed.

(** In a chain the search of [renderLoop] finds the segment of an instant. *)
Lemma chain_find (x : Q) (l : list Timeline.item) :
  forall c, chain c l -> c <= x -> x < chainEnd c l ->
    exists t, find (isActive x) l = Some t /\ In t l /\ spans t x.
Proof.
  induction l as [|t l IH]; intros c H Hc Hx; simpl in *.
  - lra.
  - destruct H as (Hs & He & Hd & Hl).
    destruct (isActive x t) eqn:E.
    + exists t. apply isActive_iff in E. auto.
    + destruct (IH _ Hl) as (t' & Hf & Hin & Hsp); [|exact Hx|eauto].
      destruct (Qlt_le_dec x (Timeline.end_ t)) as [Hlt|Hle]; [|exact Hle].
      assert (isActive x t = true) by (apply isActive_iff; split; [rewrite Hs|]; assumption).
      congruence.
Qed.

Lemma last_cons_default {A : Type} (l : list A) :
  forall a d d', last (a :: l) d = last (a :: l) d'.
Proof.
  induction l as [|b l IH]; intros a d d'; [reflexivity|].
  change (last (b :: l) d = last (b :: l) d'). apply IH.
Qed.

Lemma chainEnd_last (l : list Timeline.item) :
  forall c t, chainEnd c (t :: l) = Timeline.end_ (last l t).
Proof.
  induction l as [|a l IH]; intros c t; [reflexivity|].
  change (chainEnd c (t :: a :: l)) with (chainEnd (Timeline.end_ t) (a :: l)).
  rewrite IH. f_equal.
  change (last l a = last (a :: l) t).
  destruct l as [|b l]; [reflexivity|].
  change (last (b :: l) a = last (b :: l) t). apply last_cons_default.
Qed.

(** ** The timeline that is built *)

Lemma built_is_chain assets loadedAssets totalDuration fuel timeline :
  Forall wf_element loadedAssets ->
  buildTimeline assets loadedAssets totalDuration fuel = Normal timeline ->
  chain 0 timeline /\ totalDuration <= chainEnd 0 timeline.
Proof.
  intros Hwf H. rewrite buildTimeline_segments in H.
  destruct (segments_chain _ _ _ _ Hwf _ _ _ H) as (Hc & He & _). auto.
Qed.

Lemma built_with_enoughFuel assets loadedAssets totalDuration :
  assets <> [] -> wellLoaded assets loadedAssets ->
  exists timeline,
    buildTimeline assets loadedAssets totalDuration
      (enoughFuel loadedAssets totalDuration) = Normal timeline.
Proof.
  intros Hne Hwl. rewrite buildTimeline_segments.
  apply segments_terminates; auto.
  pose proof (enoughFuel_enough loadedAssets totalDuration (proj2 Hwl)). lra.
Qed.

Lemma built_deterministic assets loadedAssets totalDuration fuel fuel' l l' :
  buildTimeline assets loadedAssets totalDuration fuel = Normal l ->
  buildTimeline assets loadedAssets totalDuration fuel' = Normal l' ->
  l = l'.
Proof.
  rewrite !buildTimeline_segments. apply segments_deterministic.
Qed.

(** C1. For a non-empty asset list, loaded handles that report no negative
    duration and a positive total duration, the loop ends and builds a
    timeline (the same one for every fuel that lets it end) that is not
    empty, starts at 0, is contiguous and non-overlapping, ends at or after
    the total duration, and covers every instant of [0, totalDuration). *)
Theorem timeline_invariant
        (assets : list Asset.t) (loadedAssets : list Element) (totalDuration : Q) :
  assets <> [] -> wellLoaded assets loadedAssets -> 0 < totalDuration ->
  exists first rest,
    buildTimeline assets loadedAssets totalDuration
      (enoughFuel loadedAssets totalDuration) = Normal (first :: rest) /\
    (forall fuel timeline,
        buildTimeline assets loadedAssets totalDuration fuel = Normal timeline ->
        timeline = first :: rest) /\
    contiguous (first :: rest) /\
    nonOverlapping (first :: rest) /\
    Timeline.start first = 0 /\
    totalDuration <= Timeline.end_ (last rest first) /\
    covers (first :: rest) totalDuration.
Proof.
  intros Hne Hwl Hpos.
  destruct (built_with_enoughFuel _ _ totalDuration Hne Hwl) as [tl Htl].
  destruct (built_is_chain _ _ _ _ _ (proj2 Hwl) Htl) as [Hch Hend].
  assert (Hcov : covers tl totalDuration).
  { intros x Hx0 Hx.
    destruct (chain_find x tl 0 Hch Hx0) as (t & _ & Hin & Hsp); [lra|eauto]. }
  destruct tl as [|first rest].
  { destruct (Hcov 0) as (t & [] & _); [apply Qle_refl|exact Hpos]. }
  exists first, rest. repeat split.
  - exact Htl.
  - intros fuel timeline H. symmetry. eapply built_deterministic; eassumption.
  - eapply chain_contiguous, Hch.
  - eapply chain_nonOverlapping, Hch.
  - apply Hch.
  - rewrite <- (chainEnd_last rest 0). exact Hend.
  - exact Hcov.
Qed.

(** C2. Every instant of [0, totalDuration) lies in exactly one segment of
    the built timeline, the lookup of [renderLoop] returns that segment,
    and an instant at which a segment ends and the next one starts belongs
    to the next one. *)
Theorem active_segment_unique
        (assets : list Asset.t) (loadedAssets : list Element) (totalDuration x : Q) :
  assets <> [] -> wellLoaded assets loadedAssets ->
  0 <= x -> x < totalDuration ->
  exists timeline t,
    buildTimeline assets loadedAssets totalDuration
      (enoughFuel loadedAssets totalDuration) = Normal timeline /\
    In t timeline /\ spans t x /\
    (forall t', In t' timeline -> spans t' x -> t' = t) /\
    activeItem timeline x = Some t /\
    (forall l1 a b l2,
        timeline = l1 ++ a :: b :: l2 -> x == Timeline.end_ a -> t = b).
Proof.
  intros Hne Hwl Hx0 Hx.
  destruct (built_with_enoughFuel _ _ totalDuration Hne Hwl) as [tl Htl].
  destruct (built_is_chain _ _ _ _ _ (proj2 Hwl) Htl) as [Hch Hend].
  destruct (chain_find x tl 0 Hch Hx0) as (t & Hf & Hin & Hsp); [lra|].
  assert (Huniq : forall t', In t' tl -> spans t' x -> t' = t).
  { intros t' Hin' Hsp'.
    destruct (In_nth_error _ _ Hin) as [i Hi].
    destruct (In_nth_error _ _ Hin') as [j Hj].
    assert (j = i) by (eapply (chain_nonOverlapping tl 0 Hch); eassumption).
    subst j. congruence. }
  exists tl, t. repeat split; auto; try apply Hsp.
  - unfold activeItem. now rewrite Hf.
  - intros l1 a b l2 E Hxa. symmetry. apply Huniq.
    + subst tl. apply in_or_app. right. simpl. auto.
    + subst tl.
      assert (Hb : In b (l1 ++ a :: b :: l2)) by (apply in_or_app; simpl; auto).
      destruct (chain_In _ _ _ Hch Hb) as (_ & Hlt & _).
      rewrite (chain_contiguous _ _ Hch l1 a b l2 eq_refl) in Hxa.
      unfold spans. rewrite Hxa. split; [apply Qle_refl|exact Hlt].
Qed.

(** ** Aspect-fit placement *)


(** ** Aspect-fit placement *)

Lemma Qdiv_lt_cross (a b c : Q) : 0 < b -> a / b < c -> a < c * b.
Proof.
  intros Hb H.
  apply Qle_lt_trans with (a / b * b).
  - apply Qle_lteq. right. field. lra.
  - apply Qmult_lt_compat_r; assumption.
Qed.

Lemma Qdiv_ge_cross (a b c : Q) : 0 < b -> c <= a / b -> c * b <= a.
Proof.
  intros Hb H.
  apply Qle_trans with (a / b * b).
  - apply Qmult_le_compat_r; [exact H|lra].
  - apply Qle_lteq. right. field. lra.
Qed.

(** The frame is relatively wider than the canvas. *)
Lemma contain_wide (A cw ch : Q) :
  0 < A -> 0 < cw -> 0 < ch -> cw / ch < A ->
  0 < cw / A /\ cw / A <= ch /\ cw / (cw / A) == A.
Proof.
  intros HA Hw Hh Hlt. repeat split.
  - apply Qlt_shift_div_l; lra.
  - apply Qle_shift_div_r; [exact HA|].
    apply Qlt_le_weak. rewrite Qmult_comm.
    apply Qdiv_lt_cross in Hlt; [|exact Hh]. lra.
  - field. split; lra.
Qed.

(** The frame is relatively as wide as the canvas, or narrower. *)
Lemma contain_tall (A cw ch : Q) :
  0 < A -> 0 < cw -> 0 < ch -> ~ cw / ch < A ->
  0 < ch * A /\ ch * A <= cw /\ ch * A / ch == A.
Proof.
  intros HA Hw Hh Hge. apply Qnot_lt_le in Hge. repeat split.
  - apply Qmult_lt_0_compat; assumption.
  - rewrite Qmult_comm. apply Qdiv_ge_cross; assumption.
  - field. lra.
Qed.

Lemma inject_Z_pos (z : Z) : (0 < z)%Z -> 0 < inject_Z z.
Proof. intro H. change 0 with (inject_Z 0). now rewrite <- Zlt_Qlt. Qed.

(** C5. A frame with positive natural dimensions is drawn, on a canvas
    with positive dimensions, in a rectangle that fills the canvas width
    and is vertically centred when the frame's aspect exceeds the
    canvas's, that fills the canvas height and is horizontally centred
    otherwise, that has the aspect of the frame and that lies within the
    canvas. *)
Theorem aspect_fit_placement
        (w : World.t) (element : nat) (img : Element) (cw ch : Q) :
  nth_error (World.loadedAssets w) element = Some img ->
  (0 < naturalWidth img)%Z -> (0 < naturalHeight img)%Z ->
  0 < cw -> 0 < ch ->
  let assetAspect := inject_Z (naturalWidth img) / inject_Z (naturalHeight img) in
  let canvasAspect := cw / ch in
  exists dx dy dw dh,
    drawImageContain w element cw ch = Normal (emit (drawImage img dx dy dw dh) w) /\
    (canvasAspect < assetAspect -> dw = cw /\ dx = 0 /\ dy + dh + dy == ch) /\
    (~ canvasAspect < assetAspect -> dh = ch /\ dy = 0 /\ dx + dw + dx == cw) /\
    dw / dh == assetAspect /\
    0 <= dx /\ 0 <= dy /\ 0 < dw /\ 0 < dh /\ dx + dw <= cw /\ dy + dh <= ch.
Proof.
  intros Hel HW HH Hcw Hch assetAspect canvasAspect.
  assert (HA : 0 < assetAspect).
  { apply Qlt_shift_div_l; [apply inject_Z_pos, HH|].
    rewrite Qmult_0_l. apply inject_Z_pos, HW. }
  unfold drawImageContain. rewrite Hel.
  assert (E : ((naturalWidth img =? 0)%Z || (naturalHeight img =? 0)%Z)%bool = false).
  { apply orb_false_iff. split; apply Z.eqb_neq; lia. }
  rewrite E. fold assetAspect. fold canvasAspect.
  destruct (Qlt_bool canvasAspect assetAspect) eqn:Hcmp.
  - apply Qlt_bool_iff in Hcmp.
    destruct (contain_wide assetAspect cw ch HA Hcw Hch Hcmp) as (H1 & H2 & H3).
    remember (cw / assetAspect) as dh.
    exists 0, ((ch - dh) / 2), cw, dh.
    split; [reflexivity|]. split; [|split; [|split]].
    + intros _. repeat split. field.
    + intros Hn. contradiction.
    + exact H3.
    + repeat split; halves; lra.
  - apply Qlt_bool_false in Hcmp. apply Qle_not_lt in Hcmp.
    destruct (contain_tall assetAspect cw ch HA Hcw Hch Hcmp) as (H1 & H2 & H3).
    remember (ch * assetAspect) as dw.
    exists ((cw - dw) / 2), 0, dw, ch.
    split; [reflexivity|]. split; [|split; [|split]].
    + intros Hn. contradiction.
    + intros _. repeat split. field.
    + exact H3.
    + repeat split; halves; lra.
Qed.

(** ** The remainder *)

Lemma js_rem_spec (a b : Q) :
  0 <= a -> 0 < b ->
  exists r, js_rem a b = Some r /\ 0 <= r /\ r < b /\
            exists k : Z, a == inject_Z k * b + r.
Proof.
  intros Ha Hb. unfold js_rem.
  assert (Eb : Qeq_bool b 0 = false).
  { destruct (Qeq_bool b 0) eqn:E; [|reflexivity].
    apply Qeq_bool_eq in E. lra. }
  rewrite Eb.
  assert (Hq : 0 <= a / b) by (apply Qle_shift_div_l; lra).
  unfold Qtrunc. apply Qle_bool_iff in Hq. rewrite Hq.
  pose proof (Qfloor_le (a / b)) as Hlo.
  pose proof (Qlt_floor (a / b)) as Hhi.
  rewrite inject_Z_plus in Hhi. change (inject_Z 1) with 1 in Hhi.
  apply Qdiv_ge_cross in Hlo; [|exact Hb].
  apply Qdiv_lt_cross in Hhi; [|exact Hb].
  remember (inject_Z (Qfloor (a / b))) as k eqn:Hk.
  eexists. split; [reflexivity|].
  split; [lra|]. split; [lra|].
  exists (Qfloor (a / b)). rewrite <- Hk. ring.
Qed.

Lemma Qfloor_unit (x : Q) : 0 <= x -> x < 1 -> Qfloor x = 0%Z.
Proof.
  intros H0 H1.
  pose proof (Qfloor_le x) as Hlo.
  pose proof (Qlt_floor x) as Hhi.
  assert (A : inject_Z (Qfloor x) < inject_Z 1) by (change (inject_Z 1) with 1; lra).
  assert (B : inject_Z 0 < inject_Z (Qfloor x + 1)) by (change (inject_Z 0) with 0; lra).
  rewrite <- Zlt_Qlt in A, B. lia.
Qed.

(** Within the slot of its own length, the offset is not wrapped. *)
Lemma js_rem_small (a b : Q) :
  0 <= a -> a < b -> exists r, js_rem a b = Some r /\ r == a.
Proof.
  intros Ha Hb. unfold js_rem.
  assert (Eb : Qeq_bool b 0 = false).
  { destruct (Qeq_bool b 0) eqn:E; [|reflexivity].
    apply Qeq_bool_eq in E. lra. }
  rewrite Eb.
  assert (Hq : 0 <= a / b) by (apply Qle_shift_div_l; lra).
  assert (Hq1 : a / b < 1) by (apply Qlt_shift_div_r; lra).
  unfold Qtrunc. pose proof Hq as Hq'. apply Qle_bool_iff in Hq'. rewrite Hq'.
  rewrite (Qfloor_unit _ Hq Hq1).
  eexists. split; [reflexivity|]. change (inject_Z 0) with 0. ring.
Qed.

(** ** The handles *)

Lemma nth_error_update_same {A : Type} (f : A -> A) (l : list A) :
  forall n x, nth_error l n = Some x -> nth_error (update l n f) n = Some (f x).
Proof.
  induction l as [|y l IH]; intros [|n] x H; simpl in *; try discriminate.
  - congruence.
  - auto.
Qed.


Lemma naturalWidth_withCurrentTime (t : Q) (e : Element) :
  naturalWidth (withCurrentTime t e) = naturalWidth e.
Proof. destruct e; reflexivity. Qed.

Lemma naturalHeight_withCurrentTime (t : Q) (e : Element) :
  naturalHeight (withCurrentTime t e) = naturalHeight e.
Proof. destruct e; reflexivity. Qed.

Lemma drawImageContain_zero (w : World.t) (element : nat) (img : Element) (cw ch : Q) :
  nth_error (World.loadedAssets w) element = Some img ->
  (naturalWidth img = 0 \/ naturalHeight img = 0)%Z ->
  drawImageContain w element cw ch = Normal w.
Proof.
  intros Hel Hz. unfold drawImageContain. rewrite Hel.
  assert (E : ((naturalWidth img =? 0)%Z || (naturalHeight img =? 0)%Z)%bool = true).
  { apply orb_true_iff. rewrite !Z.eqb_eq. exact Hz. }
  now rewrite E.
Qed.

Lemma drawImageContain_cases (w : World.t) (element : nat) (img : Element) (cw ch : Q) :
  nth_error (World.loadedAssets w) element = Some img ->
  drawImageContain w element cw ch = Normal w \/
  exists dx dy dw dh,
    drawImageContain w element cw ch = Normal (emit (drawImage img dx dy dw dh) w).
Proof.
  intros Hel. unfold drawImageContain. rewrite Hel.
  destruct ((naturalWidth img =? 0)%Z || (naturalHeight img =? 0)%Z)%bool; [now left|].
  right. destruct (Qlt_bool _ _); eauto 6.
Qed.

(** ** Segments of the built timeline *)

Lemma chain_item (l : list Timeline.item) :
  forall c t, chain c l -> In t l ->
    Timeline.end_ t = Timeline.start t + Timeline.duration t /\
    0 < Timeline.duration t.
Proof.
  induction l as [|t0 l IH]; intros c t H Hin; simpl in *; [contradiction|].
  destruct H as (Hs & He & Hd & Hl).
  destruct Hin as [->|Hin]; [|eauto].
  split; [congruence|exact Hd].
Qed.

Lemma built_active assets loadedAssets totalDuration fuel timeline t x :
  Forall wf_element loadedAssets ->
  buildTimeline assets loadedAssets totalDuration fuel = Normal timeline ->
  In t timeline -> spans t x ->
  activeItem timeline x = Some t /\
  Timeline.end_ t = Timeline.start t + Timeline.duration t /\
  0 < Timeline.duration t.
Proof.
  intros Hwf Hb Hin Hsp.
  destruct (built_is_chain _ _ _ _ _ Hwf Hb) as [Hch _].
  destruct (chain_In _ _ _ Hch Hin) as (H0 & _ & Hend).
  destruct Hsp as [Hs He].
  destruct (chain_find x timeline 0 Hch) as (t' & Hf & Hin' & Hsp'); [lra|lra|].
  split; [|eapply chain_item; eassumption].
  unfold activeItem. rewrite Hf. f_equal.
  destruct (In_nth_error _ _ Hin) as [i Hi].
  destruct (In_nth_error _ _ Hin') as [j Hj].
  assert (j = i).
  { eapply (chain_nonOverlapping timeline 0 Hch); try eassumption. split; assumption. }
  subst j. congruence.
Qed.

(** ** One call of [renderLoop] *)


(** C10. A frame whose natural width or height is zero is not drawn:
    [drawImageContain] returns at once, and a call of [renderLoop] whose
    active segment has such a frame leaves on the canvas the black
    rectangle it started with. *)
Theorem zero_dimension_not_drawn
        (assets : list Asset.t) (loadedAssets : list Element) (totalDuration : Q)
        (fuel : nat) (timeline : list Timeline.item) (cw ch : Q)
        (w : World.t) (elapsed : Q) (t : Timeline.item) (img : Element) :
  nth_error (World.loadedAssets w) (Timeline.element t) = Some img ->
  (naturalWidth img = 0 \/ naturalHeight img = 0)%Z ->
  drawImageContain w (Timeline.element t) cw ch = Normal w /\
  (Forall wf_element loadedAssets ->
   buildTimeline assets loadedAssets totalDuration fuel = Normal timeline ->
   In t timeline -> spans t elapsed -> elapsed < totalDuration ->
   exists w',
     renderLoop timeline totalDuration cw ch w elapsed = Normal (w', true) /\
     World.trace w' = World.trace w ++ [blackClear cw ch; requestAnimationFrame]).
Proof.
  intros Hel Hz. split; [eapply drawImageContain_zero; eassumption|].
  intros Hwf Hb Hin Hsp Hlt.
  destruct (built_active _ _ _ _ _ _ _ Hwf Hb Hin Hsp) as (Hact & Hend & Hdur).
  assert (Hrun : Qle_bool totalDuration elapsed = false) by (apply Qle_bool_false, Hlt).
  destruct Hsp as [Hs He]. rewrite Hend in He.
  set (w1 := emit (blackClear cw ch) w).
  unfold renderLoop. rewrite Hrun, Hact. fold (blackClear cw ch). fold w1.
  destruct (Timeline.type t).
  - rewrite (drawImageContain_zero w1 _ img); auto.
    eexists. split; [reflexivity|]. simpl. now rewrite <- app_assoc.
  - destruct (js_rem_small (elapsed - Timeline.start t) (Timeline.duration t))
      as (r & Hr & _); [lra|lra|].
    rewrite Hr. unfold setCurrentTime. simpl World.loadedAssets. rewrite Hel.
    simpl bind.
    erewrite drawImageContain_zero.
    + eexists. split; [reflexivity|]. simpl. now rewrite <- app_assoc.
    + simpl. apply nth_error_update_same, Hel.
    + now rewrite naturalWidth_withCurrentTime, naturalHeight_withCurrentTime.
Qed.

(** ** Scenarios of the timeline builder *)

(** C3, as amended. One image against 12 seconds gives three occurrences
    of it, [0,5), [5,10) and [10,15): the last segment is stored whole, and
    its first two seconds are the ones rendered, since [renderLoop] stops
    the recorder from 12 seconds on. *)
Theorem single_image_twelve_seconds (id url : string) (e : Element) (fuel : nat) :
  buildTimeline [Asset.mk id image url] [e] 12 (3 + fuel) = Normal threeOccurrences /\
  (forall x, 10 <= x -> x < 12 ->
     activeItem threeOccurrences x = Some (Timeline.mk 2 10 15 image 0 5)) /\
  (forall cw ch w x, 12 <= x ->
     renderLoop threeOccurrences 12 cw ch w x = Normal (emit recorder_stop w, false)).
Proof.
  split; [destruct fuel; reflexivity|]. split.
  - intros x H10 H12. unfold activeItem, threeOccurrences, find, isActive; simpl.
    assert (E1 : Qlt_bool x 5 = false) by (apply Qlt_bool_false; lra).
    assert (E2 : Qlt_bool x 10 = false) by (apply Qlt_bool_false; lra).
    assert (E3 : Qle_bool 10 x = true) by (apply Qle_bool_iff; lra).
    assert (E4 : Qlt_bool x 15 = true) by (apply Qlt_bool_iff; lra).
    now rewrite E1, E2, E3, E4, !andb_false_r.
  - intros cw ch w x H. unfold renderLoop.
    apply Qle_bool_iff in H. now rewrite H.
Qed.

Lemma single_image_twelve_seconds_witness :
  10 <= 11 /\ 11 < 12 /\ 12 <= 13 /\
  activeItem threeOccurrences 11 = Some (Timeline.mk 2 10 15 image 0 5) /\
  renderLoop threeOccurrences 12 1920 1080 initialWorld 13
  = Normal (emit recorder_stop initialWorld, false).
Proof.
  assert (A : 10 <= 11) by (unfold Qle; simpl; lia).
  assert (B : 11 < 12) by reflexivity.
  assert (C : 12 <= 13) by (unfold Qle; simpl; lia).
  destruct (single_image_twelve_seconds "a1" "blob:a1" imageEl 0) as (_ & H1 & H2).
  split; [exact A|]. split; [exact B|]. split; [exact C|].
  split; [apply H1; assumption|apply H2; assumption].
Defined.

(** The scenario of C3 as the specification words it does not hold: in no
    run of the loop does the third segment end at 12 seconds. *)
Lemma last_segment_not_truncated :
  ~ exists fuel timeline third,
      buildTimeline [anImage] [imageEl] 12 fuel = Normal timeline /\
      nth_error timeline 2 = Some third /\
      Timeline.end_ third == 12.
Proof.
  intros (fuel & timeline & third & Hb & Hn & He).
  assert (H3 : buildTimeline [anImage] [imageEl] 12 3 = Normal threeOccurrences)
    by reflexivity.
  rewrite (built_deterministic _ _ _ _ _ _ _ Hb H3) in Hn.
  injection Hn as <-. simpl in He.
  unfold Qeq in He. simpl in He. discriminate He.
Qed.

(** C9. Against 10 seconds of audio, one image gives exactly the two
    segments [0,5) and [5,10); one video that lasts 12 seconds gives exactly
    one segment, [0,12), which spans the whole audio; and one video whose
    duration is unknown is given the 5 seconds of an image. *)
Theorem ten_second_audio (id url : string) (e : Element) (w h : Z) (t0 : Q) (fuel : nat) :
  buildTimeline [Asset.mk id image url] [e] 10 (2 + fuel)
  = Normal [Timeline.mk 0 0 5 image 0 5; Timeline.mk 1 5 10 image 0 5] /\
  buildTimeline [Asset.mk id video url]
    [Vid (HTMLVideoElement.mk w h (Some 12) t0)] 10 (1 + fuel)
  = Normal [Timeline.mk 0 0 12 video 0 12] /\
  buildTimeline [Asset.mk id video url]
    [Vid (HTMLVideoElement.mk w h None t0)] 10 (2 + fuel)
  = Normal [Timeline.mk 0 0 5 video 0 5; Timeline.mk 1 5 10 video 0 5].
Proof.
  repeat split; destruct fuel; reflexivity.
Qed.

(** ** Guards of [renderVideoBlob] *)

(** C6. With no asset the call is rejected by its first statement, with
    the error "Missing content": nothing is loaded, no timeline is built,
    the recorder is not started and nothing is drawn. *)
Theorem zero_assets_rejected (fuel : nat) (b : Browser.t) (content : GeneratedContent.t) :
  GeneratedContent.assets content = [] ->
  renderVideoBlob fuel b content = (initialWorld, Rejected (MkError "Missing content")) /\
  World.trace (fst (renderVideoBlob fuel b content)) = [].
Proof.
  intros H.
  assert (E : renderVideoBlob fuel b content
              = (initialWorld, Rejected (MkError "Missing content"))).
  { unfold renderVideoBlob. rewrite H. simpl. now rewrite orb_true_r. }
  now rewrite E.
Qed.

Lemma zero_assets_rejected_witness :
  GeneratedContent.assets emptyContent = [] /\
  renderVideoBlob 7 (sampleBrowser 12 [0; 12] [someChunk]) emptyContent
  = (initialWorld, Rejected (MkError "Missing content")).
Proof.
  split; [reflexivity|].
  apply (zero_assets_rejected 7 (sampleBrowser 12 [0; 12] [someChunk]) emptyContent).
  reflexivity.
Defined.


(** ** The recorder's output *)

Lemma ondataavailable_chunks (recorded : list Blob.t) :
  forall w,
    World.chunks (fold_left ondataavailable recorded w)
    = World.chunks w ++ filter nonEmpty recorded.
Proof.
  induction recorded as [|d l IH]; intros w; simpl.
  - now rewrite app_nil_r.
  - rewrite IH. unfold ondataavailable, nonEmpty.
    destruct (0 <? Blob.size d)%nat; simpl; [now rewrite <- app_assoc|reflexivity].
Qed.

Lemma bytes_of_nonEmpty (recorded : list Blob.t) :
  List.concat (map Blob.bytes (filter nonEmpty recorded))
  = List.concat (map Blob.bytes recorded).
Proof.
  induction recorded as [|d l IH]; simpl; [reflexivity|].
  unfold nonEmpty at 1, Blob.size.
  destruct (Blob.bytes d) eqn:E; simpl; [exact IH|].
  now rewrite E, IH.
Qed.




Lemma drawImageContain_keeps (w w' : World.t) (element : nat) (cw ch : Q) :
  drawImageContain w element cw ch = Normal w' ->
  World.chunks w' = World.chunks w /\ (running w -> running w').
Proof.
  unfold drawImageContain.
  destruct (nth_error _ _) as [img|]; [|discriminate].
  destruct (_ || _)%bool; [intros [= <-]; auto|].
  unfold running.
  destruct (Qlt_bool _ _); intros [= <-]; simpl; split; try reflexivity;
    intros Hr Hin; apply in_app_or in Hin; destruct Hin as [Hin|[Hin|[]]];
      auto; discriminate.
Qed.

Lemma renderLoop_keeps timeline totalDuration cw ch w elapsed w' again :
  renderLoop timeline totalDuration cw ch w elapsed = Normal (w', again) ->
  World.chunks w' = World.chunks w /\
  (again = true -> running w -> running w').
Proof.
  unfold renderLoop.
  destruct (Qle_bool totalDuration elapsed).
  { intros [= <- <-]. split; [reflexivity|discriminate]. }
  assert (Hemit : forall e w0, e <> recorder_stop -> running w0 -> running (emit e w0)).
  { unfold running. intros e w0 He Hr Hin. simpl in Hin.
    apply in_app_or in Hin. destruct Hin as [Hin|[Hin|[]]]; auto. }
  assert (Hlast : forall w1,
             World.chunks w1 = World.chunks w -> (running w -> running w1) ->
             Normal (emit requestAnimationFrame w1, true) = Normal (w', again) ->
             World.chunks w' = World.chunks w /\ (again = true -> running w -> running w')).
  { intros w1 Hc Hr [= <- <-]. split; [exact Hc|].
    intros _ Hw. apply Hemit; [discriminate|auto]. }
  destruct (activeItem timeline elapsed) as [t|]; [|simpl; apply Hlast; auto].
  set (w1 := emit (fillRect "#000000" 0 0 cw ch) w).
  assert (Hr1 : running w -> running w1) by (apply Hemit; discriminate).
  destruct (Timeline.type t).
  - destruct (drawImageContain w1 _ cw ch) as [w2| |] eqn:Ed; simpl; try discriminate.
    destruct (drawImageContain_keeps _ _ _ _ _ Ed) as [Hc Hr].
    apply Hlast; [rewrite Hc; reflexivity|auto].
  - destruct (js_rem _ _) as [vidTime|]; simpl; [|discriminate].
    unfold setCurrentTime.
    destruct (nth_error (World.loadedAssets w1) _); simpl; [|discriminate].
    destruct (drawImageContain _ _ cw ch) as [w2| |] eqn:Ed; simpl; try discriminate.
    destruct (drawImageContain_keeps _ _ _ _ _ Ed) as [Hc Hr].
    apply Hlast; [rewrite Hc; reflexivity|].
    intros Hw. apply Hr. exact (Hr1 Hw).
Qed.

Lemma frames_keeps timeline totalDuration cw ch clock :
  forall w w' again,
    frames timeline totalDuration cw ch w clock = Normal (w', again) ->
    World.chunks w' = World.chunks w /\
    (again = true -> running w -> running w').
Proof.
  induction clock as [|elapsed clock IH]; intros w w' again; simpl.
  - intros [= <- <-]. auto.
  - destruct (renderLoop timeline totalDuration cw ch w elapsed)
      as [[w1 b1]| |] eqn:E; simpl; try discriminate.
    destruct (renderLoop_keeps _ _ _ _ _ _ _ _ E) as [Hc Hr].
    destruct b1.
    + intros H. destruct (IH _ _ _ H) as [Hc' Hr'].
      split; [congruence|]. intros Ha Hw. apply Hr'; auto.
    + intros [= <- <-]. split; [exact Hc|discriminate].
Qed.

Lemma renderLoop_stops timeline totalDuration cw ch w elapsed w' :
  renderLoop timeline totalDuration cw ch w elapsed = Normal (w', false) ->
  In recorder_stop (World.trace w').
Proof.
  unfold renderLoop.
  destruct (Qle_bool totalDuration elapsed).
  - intros [= <-]. simpl. apply in_or_app. right. now left.
  - match goal with |- bind ?c _ = _ -> _ => destruct c end; simpl; discriminate.
Qed.

Lemma frames_stops timeline totalDuration cw ch clock :
  forall w w',
    frames timeline totalDuration cw ch w clock = Normal (w', false) ->
    In recorder_stop (World.trace w').
Proof.
  induction clock as [|elapsed clock IH]; intros w w'; simpl; [discriminate|].
  destruct (renderLoop timeline totalDuration cw ch w elapsed)
    as [[w1 b1]| |] eqn:E; simpl; try discriminate.
  destruct b1; [apply IH|].
  intros [= <-]. eapply renderLoop_stops, E.
Qed.

(** A call either has not stopped the recorder and has not resolved, or
    has gone through [onstop] from a world without chunks. *)
Lemma renderVideoBlob_outcome (fuel : nat) (b : Browser.t) (content : GeneratedContent.t) :
  (exists w p, renderVideoBlob fuel b content = (w, p) /\ running w /\
               forall blob, p <> Resolved blob) \/
  (exists w2, World.chunks w2 = [] /\
              In recorder_stop (World.trace w2) /\
              let w3 := fold_left ondataavailable (Browser.recorded b) w2 in
              renderVideoBlob fuel b content = (fst (onstop w3), Resolved (snd (onstop w3)))).
Proof.
  assert (R0 : running initialWorld) by (intros []).
  unfold renderVideoBlob.
  destruct (falsy _ || _)%bool; [left; eexists _, _; repeat split; [exact R0|discriminate]|].
  destruct (canvasSize _) as [width height].
  destruct (negb _); [left; eexists _, _; repeat split; [exact R0|discriminate]|].
  destruct (loadAll b _) as [loadedAssets|e|];
    try (left; eexists _, _; repeat split; [exact R0|discriminate]).
  destruct (Browser.audio b _) as [totalDuration|];
    [|left; eexists _, _; repeat split; [exact R0|discriminate]].
  destruct (Browser.recording b) as [|readings];
    [left; eexists _, _; repeat split; [intros []|discriminate]|].
  set (w1 := emit sourceNode_start (emit recorder_start (World.mk loadedAssets [] []))).
  assert (R1 : running w1).
  { intros [H|[H|[]]]; discriminate. }
  destruct (buildTimeline _ _ _ fuel) as [timeline|e|];
    try (left; eexists _, _; repeat split; [exact R1|discriminate]).
  destruct readings as [|elapsed clock];
    [left; eexists _, _; repeat split; [exact R1|discriminate]|].
  destruct (renderLoop timeline totalDuration _ _ w1 elapsed) as [[w2 again]|e|] eqn:E1;
    try (left; eexists _, _; repeat split; [exact R1|discriminate]).
  destruct (renderLoop_keeps _ _ _ _ _ _ _ _ E1) as [Hc2 Hr2].
  destruct again.
  - destruct (frames timeline totalDuration _ _ w2 clock) as [[w3 again]|e|] eqn:E2;
      try (left; eexists _, _; repeat split; [exact (Hr2 eq_refl R1)|discriminate]).
    destruct (frames_keeps _ _ _ _ _ _ _ _ E2) as [Hc3 Hr3].
    destruct again.
    + left; eexists _, _; repeat split; [|discriminate].
      apply Hr3; auto.
    + right. exists w3. split; [rewrite Hc3, Hc2; reflexivity|].
      split; [eapply frames_stops, E2|reflexivity].
  - right. exists w2. split; [rewrite Hc2; reflexivity|].
    split; [eapply renderLoop_stops, E1|reflexivity].
Qed.

(** C8, as amended. A call that stops the recorder resolves, also when no
    chunk was kept: the blob it resolves with is of type video/webm and
    holds the chunks kept, which are the non-empty ones in arrival order,
    hence the bytes of everything the recorder delivered, in order; with
    no chunk kept it is the empty blob. *)
Theorem resolved_blob_is_concatenation
        (fuel : nat) (b : Browser.t) (content : GeneratedContent.t) :
  let w := fst (renderVideoBlob fuel b content) in
  (In recorder_stop (World.trace w) ->
   exists blob, snd (renderVideoBlob fuel b content) = Resolved blob) /\
  (forall blob,
      snd (renderVideoBlob fuel b content) = Resolved blob ->
      World.chunks w = filter nonEmpty (Browser.recorded b) /\
      blob = Blob.make (World.chunks w) "video/webm" /\
      Blob.bytes blob = List.concat (map Blob.bytes (Browser.recorded b)) /\
      (World.chunks w = [] -> blob = Blob.mk [] "video/webm")).
Proof.
  destruct (renderVideoBlob_outcome fuel b content)
    as [(w & p & E & Hrun & Hp)|(w2 & Hc & Hstop & E)]; rewrite E; simpl.
  - split; [intros H; contradiction|].
    intros blob H. now apply Hp in H.
  - split; [eauto|].
    intros blob [= <-].
    assert (Hk : World.chunks (fold_left ondataavailable (Browser.recorded b) w2)
                 = filter nonEmpty (Browser.recorded b)).
    { now rewrite ondataavailable_chunks, Hc. }
    rewrite Hk. repeat split.
    + unfold Blob.make; simpl. apply bytes_of_nonEmpty.
    + intros H0. unfold Blob.make. now rewrite H0.
Qed.

Lemma resolved_blob_is_concatenation_witness :
  In recorder_stop
     (World.trace (fst (renderVideoBlob 3 (sampleBrowser 12 [0; 12] [emptyChunk; someChunk])
                          sampleContent))) /\
  snd (renderVideoBlob 3 (sampleBrowser 12 [0; 12] [emptyChunk; someChunk]) sampleContent)
  = Resolved someChunk /\
  Blob.bytes someChunk = List.concat (map Blob.bytes [emptyChunk; someChunk]).
Proof.
  pose proof (resolved_blob_is_concatenation 3
                (sampleBrowser 12 [0; 12] [emptyChunk; someChunk]) sampleContent) as [H1 H2].
  assert (S : In recorder_stop
                (World.trace (fst (renderVideoBlob 3
                   (sampleBrowser 12 [0; 12] [emptyChunk; someChunk]) sampleContent)))).
  { vm_compute. do 5 right. now left. }
  assert (R : snd (renderVideoBlob 3 (sampleBrowser 12 [0; 12] [emptyChunk; someChunk])
                     sampleContent) = Resolved someChunk) by reflexivity.
  split; [exact S|]. split; [exact R|].
  apply (H2 someChunk R).
Defined.

(** The claim C8 as the specification words it does not hold: a render
    pass whose recorder delivers nothing but an empty blob keeps no chunk,
    and is resolved, with an empty blob. *)
Lemma zero_chunks_resolved :
  let run := renderVideoBlob 3 (sampleBrowser 12 [0; 12] [emptyChunk]) sampleContent in
  In recorder_stop (World.trace (fst run)) /\
  World.chunks (fst run) = [] /\
  snd run = Resolved (Blob.mk [] "video/webm").
Proof.
  split; [vm_compute; do 5 right; now left|].
  split; reflexivity.
Qed.

(** ** The theorems at sample inputs *)

Lemma sample_wellLoaded :
  wellLoaded [anImage; aVideo] [imageEl; videoEl (Some 7)].
Proof.
  split; [reflexivity|].
  constructor; [exact I|].
  constructor; [|constructor].
  unfold wf_element; simpl. unfold Qle; simpl; lia.
Defined.

Lemma sample_assets_nonempty : [anImage; aVideo] <> [].
Proof. discriminate. Defined.

Lemma timeline_invariant_witness :
  [anImage; aVideo] <> [] /\
  wellLoaded [anImage; aVideo] [imageEl; videoEl (Some 7)] /\
  0 < 12 /\
  exists first rest,
    buildTimeline [anImage; aVideo] [imageEl; videoEl (Some 7)] 12
      (enoughFuel [imageEl; videoEl (Some 7)] 12) = Normal (first :: rest) /\
    Timeline.start first = 0 /\
    12 <= Timeline.end_ (last rest first) /\
    covers (first :: rest) 12.
Proof.
  split; [exact sample_assets_nonempty|].
  split; [exact sample_wellLoaded|].
  split; [reflexivity|].
  destruct (timeline_invariant [anImage; aVideo] [imageEl; videoEl (Some 7)] 12
              sample_assets_nonempty sample_wellLoaded eq_refl)
    as (first & rest & Hb & _ & _ & _ & Hs & He & Hc).
  exists first, rest. auto.
Defined.

Lemma active_segment_unique_witness :
  [anImage; aVideo] <> [] /\
  wellLoaded [anImage; aVideo] [imageEl; videoEl (Some 7)] /\
  0 <= 5 /\ 5 < 12 /\
  exists timeline t,
    buildTimeline [anImage; aVideo] [imageEl; videoEl (Some 7)] 12
      (enoughFuel [imageEl; videoEl (Some 7)] 12) = Normal timeline /\
    activeItem timeline 5 = Some t /\ spans t 5.
Proof.
  assert (A : 0 <= 5) by (unfold Qle; simpl; lia).
  split; [exact sample_assets_nonempty|].
  split; [exact sample_wellLoaded|].
  split; [exact A|]. split; [reflexivity|].
  destruct (active_segment_unique [anImage; aVideo] [imageEl; videoEl (Some 7)] 12 5
              sample_assets_nonempty sample_wellLoaded A eq_refl)
    as (timeline & t & Hb & _ & Hsp & _ & Hact & _).
  exists timeline, t. auto.
Defined.


Lemma aspect_fit_placement_witness :
  nth_error (World.loadedAssets pictureWorld) 0 = Some imageEl /\
  (0 < naturalWidth imageEl)%Z /\ (0 < naturalHeight imageEl)%Z /\
  0 < 1920 /\ 0 < 1080 /\
  exists dx dy dw dh,
    drawImageContain pictureWorld 0 1920 1080
    = Normal (emit (drawImage imageEl dx dy dw dh) pictureWorld) /\
    dw / dh == 1024 / 768 /\
    0 <= dx /\ 0 <= dy /\ dx + dw <= 1920 /\ dy + dh <= 1080.
Proof.
  split; [reflexivity|]. split; [reflexivity|]. split; [reflexivity|].
  split; [reflexivity|]. split; [reflexivity|].
  destruct (aspect_fit_placement pictureWorld 0 imageEl 1920 1080
              eq_refl eq_refl eq_refl eq_refl eq_refl)
    as (dx & dy & dw & dh & Hd & _ & _ & Ha & Hx & Hy & _ & _ & Hw & Hh).
  exists dx, dy, dw, dh. auto 7.
Defined.

Lemma zero_dimension_not_drawn_witness :
  nth_error (World.loadedAssets blankWorld) 0 = Some blankEl /\
  (naturalWidth blankEl = 0 \/ naturalHeight blankEl = 0)%Z /\
  Forall wf_element [blankEl] /\
  buildTimeline [anImage] [blankEl] 12 3 = Normal threeOccurrences /\
  In (Timeline.mk 0 0 5 image 0 5) threeOccurrences /\
  spans (Timeline.mk 0 0 5 image 0 5) 1 /\
  1 < 12 /\
  drawImageContain blankWorld 0 1920 1080 = Normal blankWorld /\
  exists w',
    renderLoop threeOccurrences 12 1920 1080 blankWorld 1 = Normal (w', true) /\
    World.trace w' = [blackClear 1920 1080; requestAnimationFrame].
Proof.
  assert (Z0 : (naturalWidth blankEl = 0 \/ naturalHeight blankEl = 0)%Z)
    by (left; reflexivity).
  assert (W : Forall wf_element [blankEl]) by (constructor; [exact I|constructor]).
  assert (I1 : In (Timeline.mk 0 0 5 image 0 5) threeOccurrences) by (left; reflexivity).
  assert (S : spans (Timeline.mk 0 0 5 image 0 5) 1).
  { split; [unfold Qle; simpl; lia|reflexivity]. }
  destruct (zero_dimension_not_drawn [anImage] [blankEl] 12 3 threeOccurrences 1920 1080
              blankWorld 1 (Timeline.mk 0 0 5 image 0 5) blankEl eq_refl Z0)
    as [Hd Hr].
  split; [reflexivity|]. split; [exact Z0|]. split; [exact W|].
  split; [reflexivity|]. split; [exact I1|]. split; [exact S|].
  split; [reflexivity|]. split; [exact Hd|].
  exact (Hr W eq_refl I1 S eq_refl).
Defined.

(** * Further properties *)

(** ** Which asset a segment shows *)

Lemma occurrenceDuration_inv assets loadedAssets assetIdx asset element d :
  occurrenceDuration assets loadedAssets assetIdx = Normal (asset, element, d) ->
  nth_error assets (assetIdx mod List.length assets) = Some asset /\
  element = (assetIdx mod List.length loadedAssets)%nat /\
  (Asset.type asset = image -> d = 5) /\
  (Asset.type asset = video ->
   exists e, nth_error loadedAssets element = Some e /\
             d = or_default (elementDuration e) 5).
Proof.
  unfold occurrenceDuration.
  destruct (nth_error assets _) as [a|]; [|discriminate].
  destruct (Asset.type a) eqn:Ety.
  - intros [= <- <- <-]. repeat split; auto. rewrite Ety. discriminate.
  - destruct (nth_error loadedAssets _) as [e|] eqn:Ee; [|discriminate].
    intros [= <- <- <-]. repeat split; auto.
    + rewrite Ety. discriminate.
    + intros _. eauto.
Qed.

Lemma segments_nth assets loadedAssets totalDuration (fuel : nat) :
  forall cursor assetIdx l k t,
    segments assets loadedAssets totalDuration fuel cursor assetIdx = Normal l ->
    nth_error l k = Some t ->
    exists asset,
      occurrenceDuration assets loadedAssets (assetIdx + k)
      = Normal (asset, Timeline.element t, Timeline.duration t) /\
      Timeline.assetIndex t = (assetIdx + k)%nat /\
      Timeline.type t = Asset.type asset.
Proof.
  induction fuel as [|fuel IH]; intros cursor assetIdx l k t H Hk; simpl in H;
    destruct (Qlt_bool cursor totalDuration); try discriminate;
    try (injection H as <-; destruct k; discriminate).
  destruct (occurrenceDuration assets loadedAssets assetIdx)
    as [[[asset element] d]|e|] eqn:Ed; try discriminate.
  destruct (segments _ _ _ fuel _ _) as [r| |] eqn:E; try discriminate.
  injection H as <-.
  destruct k as [|k]; simpl in Hk.
  - injection Hk as <-. simpl. rewrite Nat.add_0_r. eauto.
  - destruct (IH _ _ _ _ _ E Hk) as (a & H1 & H2 & H3).
    replace (assetIdx + S k)%nat with (S assetIdx + k)%nat by lia. eauto.
Qed.

(** X1. The segment at position [k] of the timeline is the occurrence
    number [k]: it shows the asset at [k] modulo the number of assets,
    through the handle at the same position, for 5 seconds when the asset
    is an image and for the handle's duration (5 seconds when that is
    unknown or zero) when it is a video. *)
Theorem timeline_round_robin
        (assets : list Asset.t) (loadedAssets : list Element) (totalDuration : Q)
        (fuel : nat) (timeline : list Timeline.item) (k : nat) (t : Timeline.item) :
  buildTimeline assets loadedAssets totalDuration fuel = Normal timeline ->
  nth_error timeline k = Some t ->
  Timeline.assetIndex t = k /\
  Timeline.element t = (k mod List.length loadedAssets)%nat /\
  exists asset,
    nth_error assets (k mod List.length assets) = Some asset /\
    Timeline.type t = Asset.type asset /\
    (Asset.type asset = image -> Timeline.duration t = 5) /\
    (Asset.type asset = video ->
     exists e, nth_error loadedAssets (k mod List.length loadedAssets) = Some e /\
               Timeline.duration t = or_default (elementDuration e) 5).
Proof.
  intros Hb Hk. rewrite buildTimeline_segments in Hb.
  destruct (segments_nth _ _ _ _ _ _ _ _ _ Hb Hk) as (asset & Hocc & Hidx & Hty).
  simpl in Hocc, Hidx.
  destruct (occurrenceDuration_inv _ _ _ _ _ _ Hocc) as (Ha & He & Hi & Hv).
  split; [exact Hidx|]. split; [exact He|].
  exists asset. repeat split; auto.
  intros Hvid. destruct (Hv Hvid) as (e & H1 & H2).
  exists e. rewrite <- He. auto.
Qed.

Lemma timeline_round_robin_witness :
  buildTimeline [anImage; aVideo] [imageEl; videoEl (Some 7)] 20 9
  = Normal [Timeline.mk 0 0 5 image 0 5; Timeline.mk 1 5 12 video 1 7;
            Timeline.mk 2 12 17 image 0 5; Timeline.mk 3 17 24 video 1 7] /\
  Timeline.assetIndex (Timeline.mk 3 17 24 video 1 7) = 3%nat /\
  Timeline.element (Timeline.mk 3 17 24 video 1 7) = (3 mod 2)%nat.
Proof.
  split; [reflexivity|].
  destruct (timeline_round_robin [anImage; aVideo] [imageEl; videoEl (Some 7)] 20 9
              [Timeline.mk 0 0 5 image 0 5; Timeline.mk 1 5 12 video 1 7;
               Timeline.mk 2 12 17 image 0 5; Timeline.mk 3 17 24 video 1 7]
              3 (Timeline.mk 3 17 24 video 1 7) eq_refl eq_refl) as (H1 & H2 & _).
  split; [exact H1|exact H2].
Defined.

(** ** How far the timeline goes *)

(** X2. Every segment of the timeline starts inside the narration: none
    lies wholly after its end, and the timeline runs past the end of the
    narration by less than the duration of its last segment. *)
Theorem timeline_overshoot
        (assets : list Asset.t) (loadedAssets : list Element) (totalDuration : Q)
        (fuel : nat) (timeline : list Timeline.item) (t : Timeline.item) :
  Forall wf_element loadedAssets ->
  buildTimeline assets loadedAssets totalDuration fuel = Normal timeline ->
  In t timeline ->
  0 <= Timeline.start t /\ Timeline.start t < totalDuration /\
  Timeline.end_ t < totalDuration + Timeline.duration t.
Proof.
  intros Hwf Hb Hin. rewrite buildTimeline_segments in Hb.
  destruct (segments_chain _ _ _ _ Hwf _ _ _ Hb) as (Hch & _ & Hst).
  destruct (chain_In _ _ _ Hch Hin) as (H0 & _ & _).
  destruct (chain_item _ _ _ Hch Hin) as (He & _).
  rewrite Forall_forall in Hst. specialize (Hst _ Hin). simpl in Hst.
  rewrite He. repeat split; lra.
Qed.

Lemma timeline_overshoot_witness :
  Forall wf_element [videoEl (Some 7)] /\
  buildTimeline [aVideo] [videoEl (Some 7)] 12 5 = Normal loopedClip /\
  In (Timeline.mk 1 7 14 video 0 7) loopedClip /\
  7 < 12 /\ 14 < 12 + 7.
Proof.
  assert (W : Forall wf_element [videoEl (Some 7)]).
  { constructor; [|constructor]. unfold wf_element; simpl. unfold Qle; simpl; lia. }
  assert (I2 : In (Timeline.mk 1 7 14 video 0 7) loopedClip) by (right; left; reflexivity).
  destruct (timeline_overshoot [aVideo] [videoEl (Some 7)] 12 5 loopedClip
              (Timeline.mk 1 7 14 video 0 7) W eq_refl I2) as (_ & H1 & H2).
  split; [exact W|]. split; [reflexivity|]. split; [exact I2|].
  split; [exact H1|exact H2].
Defined.

(** ** A slideshow of images *)

Lemma occurrenceDuration_image assets loadedAssets assetIdx :
  assets <> [] -> Forall (fun a => Asset.type a = image) assets ->
  exists asset,
    occurrenceDuration assets loadedAssets assetIdx
    = Normal (asset, (assetIdx mod List.length loadedAssets)%nat, 5) /\
    Asset.type asset = image.
Proof.
  intros Hne Himg. unfold occurrenceDuration.
  destruct (nth_error assets (assetIdx mod List.length assets)) as [a|] eqn:Ea.
  - assert (Ha : Asset.type a = image).
    { rewrite Forall_forall in Himg. eapply Himg, nth_error_In, Ea. }
    rewrite Ha. eauto.
  - apply nth_error_None in Ea.
    assert (0 < List.length assets)%nat by (destruct assets; [congruence|simpl; lia]).
    pose proof (Nat.mod_upper_bound assetIdx (List.length assets)). lia.
Qed.

Lemma segments_images assets loadedAssets totalDuration (fuel : nat) :
  assets <> [] -> Forall (fun a => Asset.type a = image) assets ->
  forall cursor assetIdx l,
    segments assets loadedAssets totalDuration fuel cursor assetIdx = Normal l ->
    chain cursor l /\ totalDuration <= chainEnd cursor l /\
    Forall (fun t => Timeline.start t < totalDuration /\ Timeline.duration t = 5) l.
Proof.
  intros Hne Himg.
  induction fuel as [|fuel IH]; intros cursor assetIdx l H; simpl in H;
    destruct (Qlt_bool cursor totalDuration) eqn:Hc; try discriminate;
    try (injection H as <-; simpl; apply Qlt_bool_false in Hc; auto).
  destruct (occurrenceDuration_image assets loadedAssets assetIdx Hne Himg)
    as (asset & Ed & _).
  rewrite Ed in H.
  destruct (segments _ _ _ fuel _ _) as [r| |] eqn:E; try discriminate.
  injection H as <-.
  destruct (IH _ _ _ E) as (Hch & Hend & Hst).
  apply Qlt_bool_iff in Hc.
  simpl. repeat split; auto.
Qed.

Lemma segments_images_terminate assets loadedAssets totalDuration (fuel : nat) :
  assets <> [] -> Forall (fun a => Asset.type a = image) assets ->
  forall cursor assetIdx,
    totalDuration - cursor <= inject_Z (Z.of_nat fuel) * 5 ->
    exists l, segments assets loadedAssets totalDuration fuel cursor assetIdx = Normal l.
Proof.
  intros Hne Himg.
  induction fuel as [|fuel IH]; intros cursor assetIdx Hf; simpl segments;
    destruct (Qlt_bool cursor totalDuration) eqn:Hc; eauto.
  - exfalso. apply Qlt_bool_iff in Hc. simpl in Hf.
    rewrite Qmult_0_l in Hf. lra.
  - destruct (occurrenceDuration_image assets loadedAssets assetIdx Hne Himg)
      as (asset & Ed & _).
    rewrite Ed.
    destruct (IH (cursor + 5) (S assetIdx)) as [l Hl].
    + rewrite Nat2Z.inj_succ in Hf. unfold Z.succ in Hf.
      rewrite inject_Z_plus in Hf. change (inject_Z 1) with 1 in Hf.
      remember (inject_Z (Z.of_nat fuel)) as k. lra.
    + rewrite Hl. eauto.
Qed.

Lemma inject_nat_succ (k : nat) :
  inject_Z (Z.of_nat (S k)) == inject_Z (Z.of_nat k) + 1.
Proof.
  rewrite Nat2Z.inj_succ. unfold Z.succ. rewrite inject_Z_plus. reflexivity.
Qed.

Lemma chain_fives (l : list Timeline.item) :
  forall c, chain c l -> Forall (fun t => Timeline.duration t = 5) l ->
    chainEnd c l == c + 5 * inject_Z (Z.of_nat (List.length l)) /\
    forall k t, nth_error l k = Some t ->
      Timeline.start t == c + 5 * inject_Z (Z.of_nat k) /\
      Timeline.end_ t == c + 5 * inject_Z (Z.of_nat k) + 5.
Proof.
  induction l as [|t0 l IH]; intros c Hch Hd.
  - split; [simpl; ring|]. intros [|k] t; discriminate.
  - simpl in Hch. destruct Hch as (Hs & He & _ & Hl).
    inversion Hd as [|? ? H5 Hd']; subst.
    destruct (IH _ Hl Hd') as [Hend Hnth].
    assert (E0 : Timeline.end_ t0 == Timeline.start t0 + 5) by (rewrite He, H5; reflexivity).
    split.
    + change (chainEnd (Timeline.start t0) (t0 :: l)) with (chainEnd (Timeline.end_ t0) l).
      rewrite Hend. change (List.length (t0 :: l)) with (S (List.length l)).
      rewrite inject_nat_succ, E0. ring.
    + intros [|k] t Hk; simpl in Hk.
      * injection Hk as <-. change (inject_Z (Z.of_nat 0)) with 0.
        split; [ring|]. rewrite E0. ring.
      * destruct (Hnth _ _ Hk) as [H1 H2].
        rewrite inject_nat_succ. rewrite H1, H2, E0. split; ring.
Qed.

Lemma Qceiling_unique (x : Q) (z : Z) :
  inject_Z z - 1 < x -> x <= inject_Z z -> Qceiling x = z.
Proof.
  intros Hlo Hhi.
  pose proof (Qle_ceiling x) as H1.
  pose proof (Qceiling_lt x) as H2.
  unfold Z.sub in H2. rewrite inject_Z_plus, inject_Z_opp in H2.
  change (inject_Z 1) with 1 in H2.
  assert (A : inject_Z z < inject_Z (Qceiling x + 1)).
  { rewrite inject_Z_plus. change (inject_Z 1) with 1. lra. }
  assert (B : inject_Z (Qceiling x) < inject_Z (z + 1)).
  { rewrite inject_Z_plus. change (inject_Z 1) with 1. lra. }
  rewrite <- Zlt_Qlt in A, B. lia.
Qed.

(** X3. When all the assets are images, the loop runs once per started
    slot of 5 seconds: it ends with a fuel of [totalDuration / 5] rounded
    up, the timeline has that many segments, and the segment at position
    [k] is [5k, 5k + 5). *)
Theorem image_timeline_length
        (assets : list Asset.t) (loadedAssets : list Element) (totalDuration : Q) :
  assets <> [] -> Forall (fun a => Asset.type a = image) assets ->
  0 < totalDuration ->
  let n := Z.to_nat (Qceiling (totalDuration / 5)) in
  exists timeline,
    buildTimeline assets loadedAssets totalDuration n = Normal timeline /\
    List.length timeline = n /\
    forall k t, nth_error timeline k = Some t ->
      Timeline.type t = image /\
      Timeline.start t == 5 * inject_Z (Z.of_nat k) /\
      Timeline.end_ t == 5 * inject_Z (Z.of_nat k) + 5.
Proof.
  intros Hne Himg Hpos n.
  assert (Hn : totalDuration <= inject_Z (Z.of_nat n) * 5).
  { pose proof (Qle_ceiling (totalDuration / 5)) as Hc.
    assert (Hz : inject_Z (Qceiling (totalDuration / 5)) <= inject_Z (Z.of_nat n)).
    { rewrite <- Zle_Qle. unfold n. lia. }
    apply Qle_trans with (totalDuration / 5 * 5).
    - apply Qle_lteq. right. field.
    - apply Qmult_le_compat_r; [lra|discriminate]. }
  destruct (segments_images_terminate assets loadedAssets totalDuration n Hne Himg 0 0%nat)
    as [tl Htl]; [lra|].
  exists tl. rewrite buildTimeline_segments. split; [exact Htl|].
  destruct (segments_images _ _ _ _ Hne Himg _ _ _ Htl) as (Hch & Hend & Hst).
  assert (Hd : Forall (fun t => Timeline.duration t = 5) tl).
  { eapply Forall_impl; [|exact Hst]. intros t [_ H]; exact H. }
  destruct (chain_fives tl 0 Hch Hd) as [Hce Hnth].
  split.
  - (* the last segment starts before the end of the narration *)
    destruct (Nat.eq_dec (List.length tl) 0) as [E0|Hlen].
    { rewrite E0 in Hce. change (inject_Z (Z.of_nat 0)) with 0 in Hce.
      rewrite Hce in Hend. lra. }
    destruct (nth_error tl (List.length tl - 1)) as [t|] eqn:Et.
    2:{ apply nth_error_None in Et. lia. }
    destruct (Hnth _ _ Et) as [Hs _].
    rewrite Forall_forall in Hst.
    destruct (Hst t (nth_error_In _ _ Et)) as [Hlt _].
    rewrite Hs in Hlt. rewrite Hce in Hend.
    assert (Hm : inject_Z (Z.of_nat (List.length tl - 1))
                 == inject_Z (Z.of_nat (List.length tl)) - 1).
    { replace (Z.of_nat (List.length tl - 1)) with (Z.of_nat (List.length tl) + - 1)%Z by lia.
      rewrite inject_Z_plus. reflexivity. }
    rewrite Hm in Hlt.
    assert (Hq : Qceiling (totalDuration / 5) = Z.of_nat (List.length tl)).
    { apply Qceiling_unique.
      - apply Qlt_shift_div_l; [reflexivity|]. lra.
      - apply Qle_shift_div_r; [reflexivity|]. lra. }
    unfold n. rewrite Hq. now rewrite Nat2Z.id.
  - intros k t Hk.
    destruct (Hnth _ _ Hk) as [H1 H2].
    destruct (segments_nth _ _ _ _ _ _ _ _ _ Htl Hk) as (a & Hocc & _ & Hty).
    destruct (occurrenceDuration_inv _ _ _ _ _ _ Hocc) as (Ha & _).
    rewrite Forall_forall in Himg.
    rewrite Hty, (Himg a (nth_error_In _ _ Ha)).
    split; [reflexivity|]. rewrite H1, H2. split; ring.
Qed.

Lemma image_timeline_length_witness :
  [anImage] <> [] /\ Forall (fun a => Asset.type a = image) [anImage] /\ 0 < 12 /\
  exists timeline,
    buildTimeline [anImage] [imageEl] 12 (Z.to_nat (Qceiling (12 / 5))) = Normal timeline /\
    List.length timeline = Z.to_nat (Qceiling (12 / 5)).
Proof.
  assert (A : [anImage] <> []) by discriminate.
  assert (B : Forall (fun a => Asset.type a = image) [anImage])
    by (constructor; [reflexivity|constructor]).
  destruct (image_timeline_length [anImage] [imageEl] 12 A B eq_refl)
    as (timeline & H1 & H2 & _).
  split; [exact A|]. split; [exact B|]. split; [reflexivity|].
  exists timeline. split; [exact H1|exact H2].
Defined.

(** ** Calls of [renderLoop] do not throw *)

Lemma update_length {A : Type} (f : A -> A) (l : list A) :
  forall n, List.length (update l n f) = List.length l.
Proof.
  induction l as [|x l IH]; intros [|n]; simpl; auto.
Qed.

Lemma or_default_nonzero (x : option Q) (d : Q) :
  ~ d == 0 -> ~ or_default x d == 0.
Proof.
  intros Hd. destruct x as [q|]; simpl; [|exact Hd].
  destruct (Qeq_bool q 0) eqn:E; [exact Hd|].
  now apply Qeq_bool_neq.
Qed.

Lemma loadAll_length (b : Browser.t) (assets : list Asset.t) :
  forall loadedAssets,
    loadAll b assets = Normal loadedAssets ->
    List.length loadedAssets = List.length assets.
Proof.
  induction assets as [|a l IH]; intros loadedAssets; simpl.
  - now intros [= <-].
  - destruct (loadAsset b a); simpl; try discriminate.
    destruct (loadAll b l) as [es| |]; simpl; try discriminate.
    intros [= <-]. simpl. now rewrite (IH es).
Qed.

Lemma loadAll_throw (b : Browser.t) (assets : list Asset.t) (e : Error) :
  loadAll b assets = Throw e ->
  exists a, In a assets /\ Browser.media b (Asset.url a) = None /\
            e = LoadError (Asset.url a).
Proof.
  induction assets as [|a l IH]; simpl; [discriminate|].
  unfold loadAsset at 1.
  destruct (Browser.media b (Asset.url a)) as [[[w h] d]|] eqn:Em; simpl.
  - destruct (loadAll b l) as [es|e'|];
      destruct (Asset.type a); simpl; try discriminate;
        intros [= <-]; destruct (IH eq_refl) as (a' & Hin & Hm & He); eauto.
  - intros [= <-]. eauto.
Qed.

Lemma loadAll_fuel (b : Browser.t) (assets : list Asset.t) :
  loadAll b assets <> OutOfFuel.
Proof.
  induction assets as [|a l IH]; simpl; [discriminate|].
  unfold loadAsset.
  destruct (Browser.media b (Asset.url a)) as [[[w h] d]|]; simpl; [|discriminate].
  destruct (loadAll b l); destruct (Asset.type a); simpl; congruence.
Qed.

Lemma occurrenceDuration_normal assets loadedAssets assetIdx :
  assets <> [] -> List.length loadedAssets = List.length assets ->
  exists asset element d,
    occurrenceDuration assets loadedAssets assetIdx = Normal (asset, element, d) /\
    (element < List.length loadedAssets)%nat /\ ~ d == 0.
Proof.
  intros Hne Hlen.
  assert (Hpos : (0 < List.length assets)%nat).
  { destruct assets; [congruence|simpl; lia]. }
  pose proof (Nat.mod_upper_bound assetIdx (List.length loadedAssets)) as Hub.
  unfold occurrenceDuration.
  destruct (nth_error assets (assetIdx mod List.length assets)) as [a|] eqn:Ea.
  2:{ apply nth_error_None in Ea.
      pose proof (Nat.mod_upper_bound assetIdx (List.length assets)). lia. }
  destruct (Asset.type a).
  - eexists _, _, _. split; [reflexivity|]. split; [lia|discriminate].
  - destruct (nth_error loadedAssets _) as [e|] eqn:Ee.
    + eexists _, _, _. split; [reflexivity|]. split; [lia|].
      apply or_default_nonzero. discriminate.
    + apply nth_error_None in Ee. lia.
Qed.

Lemma segments_itemsOk assets loadedAssets totalDuration (fuel : nat) :
  assets <> [] -> List.length loadedAssets = List.length assets ->
  forall cursor assetIdx,
    match segments assets loadedAssets totalDuration fuel cursor assetIdx with
    | Normal l => Forall (itemOk (List.length loadedAssets)) l
    | Throw _ => False
    | OutOfFuel => True
    end.
Proof.
  intros Hne Hlen.
  induction fuel as [|fuel IH]; intros cursor assetIdx; simpl;
    destruct (Qlt_bool cursor totalDuration); auto.
  destruct (occurrenceDuration_normal assets loadedAssets assetIdx Hne Hlen)
    as (asset & element & d & Ed & He & Hd).
  rewrite Ed. specialize (IH (cursor + d) (S assetIdx)).
  destruct (segments _ _ _ fuel _ _); auto.
  constructor; [split; assumption|exact IH].
Qed.

Lemma activeItem_In (timeline : list Timeline.item) (x : Q) (t : Timeline.item) :
  activeItem timeline x = Some t -> In t timeline.
Proof.
  unfold activeItem.
  destruct (find (isActive x) timeline) as [t'|] eqn:E.
  - intros [= <-]. eapply find_some, E.
  - apply nth_error_In.
Qed.

Lemma activeItem_nonempty (timeline : list Timeline.item) (x : Q) :
  timeline <> [] -> exists t, activeItem timeline x = Some t.
Proof.
  intros Hne. unfold activeItem.
  destruct (find (isActive x) timeline) as [t'|]; [eauto|].
  destruct (nth_error timeline (List.length timeline - 1)) as [t|] eqn:E; [eauto|].
  apply nth_error_None in E. destruct timeline; [congruence|simpl in E; lia].
Qed.

Lemma js_rem_defined (a b : Q) : ~ b == 0 -> exists r, js_rem a b = Some r.
Proof.
  intros Hb. unfold js_rem.
  destruct (Qeq_bool b 0) eqn:E; [|eauto].
  apply Qeq_bool_eq in E. contradiction.
Qed.

Lemma drawImageContain_frame (w : World.t) (element : nat) (cw ch : Q) :
  (element < List.length (World.loadedAssets w))%nat ->
  exists w',
    drawImageContain w element cw ch = Normal w' /\
    World.loadedAssets w' = World.loadedAssets w /\
    World.chunks w' = World.chunks w /\
    (World.trace w' = World.trace w \/
     exists img dx dy dw dh,
       World.trace w' = World.trace w ++ [drawImage img dx dy dw dh]).
Proof.
  intros Hlt.
  destruct (nth_error (World.loadedAssets w) element) as [img|] eqn:E.
  2:{ apply nth_error_None in E. lia. }
  destruct (drawImageContain_cases w element img cw ch E)
    as [Hd|(dx & dy & dw & dh & Hd)]; rewrite Hd; eexists; split; try reflexivity.
  - auto.
  - simpl. repeat split. right. eauto 6.
Qed.

(** A call of [renderLoop] on a timeline whose entries can be drawn: it
    stops the recorder from [totalDuration] on, and before that leaves one
    frame and asks for the next call. *)
Lemma renderLoop_shape timeline totalDuration cw ch (w : World.t) (x : Q) :
  Forall (itemOk (List.length (World.loadedAssets w))) timeline ->
  (totalDuration <= x /\
   renderLoop timeline totalDuration cw ch w x = Normal (emit recorder_stop w, false)) \/
  (x < totalDuration /\
   exists w',
     renderLoop timeline totalDuration cw ch w x = Normal (w', true) /\
     List.length (World.loadedAssets w') = List.length (World.loadedAssets w) /\
     World.chunks w' = World.chunks w /\
     (timeline = [] /\ World.trace w' = World.trace w ++ [requestAnimationFrame] \/
      exists fr, isFrame cw ch fr /\ World.trace w' = World.trace w ++ fr)).
Proof.
  intros Hok. unfold renderLoop.
  destruct (Qle_bool totalDuration x) eqn:Hx.
  { left. apply Qle_bool_iff in Hx. auto. }
  right. apply Qle_bool_false in Hx. split; [exact Hx|].
  destruct (activeItem timeline x) as [t|] eqn:Ea.
  2:{ eexists. split; [reflexivity|]. simpl. repeat split. left. split; [|reflexivity].
      destruct timeline as [|t0 tl]; [reflexivity|].
      destruct (activeItem_nonempty (t0 :: tl) x) as [t Ht]; [discriminate|congruence]. }
  rewrite Forall_forall in Hok.
  destruct (Hok t (activeItem_In _ _ _ Ea)) as [Hel Hdur].
  set (w1 := emit (fillRect "#000000" 0 0 cw ch) w).
  assert (Hfinish : forall w2,
             List.length (World.loadedAssets w2) = List.length (World.loadedAssets w) ->
             World.trace w2 = World.trace w1 -> World.chunks w2 = World.chunks w ->
             exists w',
               bind (drawImageContain w2 (Timeline.element t) cw ch)
                 (fun w' => Normal (emit requestAnimationFrame w', true))
               = Normal (w', true) /\
               List.length (World.loadedAssets w') = List.length (World.loadedAssets w) /\
               World.chunks w' = World.chunks w /\
               (timeline = [] /\ World.trace w' = World.trace w ++ [requestAnimationFrame] \/
                exists fr, isFrame cw ch fr /\ World.trace w' = World.trace w ++ fr)).
  { intros w2 Hl2 Ht2 Hc2.
    destruct (drawImageContain_frame w2 (Timeline.element t) cw ch)
      as (w3 & Hd & Hl3 & Hc3 & Ht3); [lia|].
    rewrite Hd. simpl. eexists. split; [reflexivity|].
    split; [simpl; congruence|]. split; [simpl; congruence|]. right.
    destruct Ht3 as [Ht3|(img & dx & dy & dw & dh & Ht3)];
      simpl; rewrite Ht3, Ht2; unfold w1; simpl.
    - exists [blackClear cw ch; requestAnimationFrame].
      split; [now left|]. now rewrite <- app_assoc.
    - exists [blackClear cw ch; drawImage img dx dy dw dh; requestAnimationFrame].
      split; [right; eauto 6|]. now rewrite <- !app_assoc. }
  destruct (Timeline.type t).
  - apply (Hfinish w1); reflexivity.
  - destruct (js_rem_defined (x - Timeline.start t) (Timeline.duration t) Hdur) as [r Hr].
    rewrite Hr. unfold setCurrentTime.
    destruct (nth_error (World.loadedAssets w1) (Timeline.element t)) as [el|] eqn:Ee.
    2:{ apply nth_error_None in Ee. simpl in Ee. lia. }
    simpl bind. apply Hfinish; simpl; auto. apply update_length.
Qed.

(** ** A render pass from its first frame to its last *)

Lemma frames_shape timeline totalDuration cw ch (n : nat) :
  Forall (itemOk n) timeline ->
  forall clock w,
    List.length (World.loadedAssets w) = n ->
    exists w' ticks,
      World.chunks w' = World.chunks w /\
      World.trace w' = World.trace w ++ List.concat ticks /\
      Forall (fun fr => timeline = [] /\ fr = [requestAnimationFrame] \/ isFrame cw ch fr)
             ticks /\
      ((Forall (fun x => x < totalDuration) clock /\
        List.length ticks = List.length clock /\
        frames timeline totalDuration cw ch w clock = Normal (w', true)) \/
       (exists pre x post,
           clock = pre ++ x :: post /\ Forall (fun y => y < totalDuration) pre /\
           totalDuration <= x /\ List.length ticks = List.length pre /\
           frames timeline totalDuration cw ch w clock
           = Normal (emit recorder_stop w', false))).
Proof.
  intros Hok. induction clock as [|x clock IH]; intros w Hlen.
  - exists w, []. simpl. rewrite app_nil_r. repeat split; auto.
  - simpl frames.
    destruct (renderLoop_shape timeline totalDuration cw ch w x)
      as [[Hx Hr]|(Hx & w1 & Hr & Hl1 & Hc1 & Ht1)]; [now rewrite Hlen| |].
    + exists w, []. simpl. rewrite app_nil_r. repeat split; auto.
      right. exists [], x, clock. rewrite Hr. simpl. repeat split; auto.
    + rewrite Hr. simpl.
      destruct (IH w1) as (w' & ticks & Hc & Ht & Hsh & Hcase); [congruence|].
      assert (Hfr : exists fr,
                 (timeline = [] /\ fr = [requestAnimationFrame] \/ isFrame cw ch fr) /\
                 World.trace w1 = World.trace w ++ fr).
      { destruct Ht1 as [[He Ht1]|(fr & Hf & Ht1)]; eauto. }
      destruct Hfr as (fr & Hf & Hfr).
      exists w', (fr :: ticks). split; [congruence|].
      split; [simpl; rewrite Ht, Hfr, <- app_assoc; reflexivity|].
      split; [constructor; assumption|].
      destruct Hcase as [(Hall & Hn & Hrun)|(pre & y & post & Hcl & Hpre & Hy & Hn & Hrun)].
      * left. repeat split; auto. simpl. now rewrite Hn.
      * right. exists (x :: pre), y, post. subst clock. simpl.
        repeat split; auto.
Qed.

Lemma built_nonempty assets loadedAssets totalDuration fuel timeline :
  0 < totalDuration ->
  buildTimeline assets loadedAssets totalDuration fuel = Normal timeline ->
  timeline <> [].
Proof.
  intros Hpos. rewrite buildTimeline_segments.
  apply Qlt_bool_iff in Hpos.
  destruct fuel; simpl; rewrite Hpos; intros H; [discriminate H|].
  destruct (occurrenceDuration _ _ _) as [[[a e] d]| |]; try discriminate H.
  destruct (segments _ _ _ fuel _ _); try discriminate H.
  injection H as <-. discriminate.
Qed.

Lemma built_with_fuel assets loadedAssets totalDuration fuel :
  assets <> [] -> wellLoaded assets loadedAssets ->
  (enoughFuel loadedAssets totalDuration <= fuel)%nat ->
  exists timeline, buildTimeline assets loadedAssets totalDuration fuel = Normal timeline.
Proof.
  intros Hne Hwl Hfuel. rewrite buildTimeline_segments.
  apply segments_terminates; auto.
  pose proof (enoughFuel_enough loadedAssets totalDuration (proj2 Hwl)) as He.
  pose proof (minDuration_pos _ (proj2 Hwl)) as Hm.
  assert (Hz : inject_Z (Z.of_nat (enoughFuel loadedAssets totalDuration))
               <= inject_Z (Z.of_nat fuel)) by (rewrite <- Zle_Qle; lia).
  apply Qle_trans with (inject_Z (Z.of_nat (enoughFuel loadedAssets totalDuration))
                        * minDuration loadedAssets); [lra|].
  apply Qmult_le_compat_r; [exact Hz|lra].
Qed.

Lemma ondataavailable_trace (recorded : list Blob.t) :
  forall w, World.trace (fold_left ondataavailable recorded w) = World.trace w.
Proof.
  induction recorded as [|d l IH]; intros w; simpl; [reflexivity|].
  rewrite IH. unfold ondataavailable. now destruct (0 <? Blob.size d)%nat.
Qed.

Lemma recording_of_clock (b : Browser.t) :
  Browser.clock b <> [] -> Browser.recording b = Browser.Readings (Browser.clock b).
Proof.
  unfold Browser.clock. destruct (Browser.recording b); [congruence|reflexivity].
Qed.

Lemma recording_reached (b : Browser.t) (totalDuration : Q) :
  Exists (fun x => totalDuration <= x) (Browser.clock b) ->
  Browser.recording b = Browser.Readings (Browser.clock b).
Proof.
  intros H. apply recording_of_clock. intros E. rewrite E in H. inversion H.
Qed.

Lemma renderVideoBlob_started fuel b content loadedAssets totalDuration timeline :
  passes b content ->
  loadAll b (GeneratedContent.assets content) = Normal loadedAssets ->
  Browser.audio b (narrationUrl content) = Some totalDuration ->
  buildTimeline (GeneratedContent.assets content) loadedAssets totalDuration fuel
  = Normal timeline ->
  Browser.recording b = Browser.Readings (Browser.clock b) ->
  forall w' again,
    frames timeline totalDuration
      (inject_Z (fst (canvasSize (GeneratedContent.aspectRatio content))))
      (inject_Z (snd (canvasSize (GeneratedContent.aspectRatio content))))
      (emit sourceNode_start (emit recorder_start (World.mk loadedAssets [] [])))
      (Browser.clock b) = Normal (w', again) ->
    renderVideoBlob fuel b content =
    if again then (w', Pending)
    else (emit audioCtx_close (fold_left ondataavailable (Browser.recorded b) w'),
          Resolved (Blob.make
                      (World.chunks (fold_left ondataavailable (Browser.recorded b) w'))
                      "video/webm")).
Proof.
  intros (Haudio & Hne & Hctx) Hload Hdur Hbuild Hrec w' again.
  unfold renderVideoBlob. rewrite Haudio.
  assert (E0 : (List.length (GeneratedContent.assets content) =? 0)%nat = false).
  { apply Nat.eqb_neq. destruct (GeneratedContent.assets content); [congruence|discriminate]. }
  rewrite E0. simpl orb. cbv iota.
  destruct (canvasSize (GeneratedContent.aspectRatio content)) as [width height].
  rewrite Hctx. simpl negb. cbv iota.
  rewrite Hload. fold (narrationUrl content). rewrite Hdur, Hrec, Hbuild.
  simpl fst. simpl snd.
  destruct (Browser.clock b) as [|x clock]; simpl frames.
  - intros [= <- <-]. reflexivity.
  - destruct (renderLoop timeline totalDuration _ _ _ x) as [[w2 a2]| |]; simpl;
      try discriminate.
    destruct a2.
    + intros H. rewrite H. destruct again; reflexivity.
    + intros [= <- <-]. reflexivity.
Qed.

Lemma reached_or_not (totalDuration : Q) (clock : list Q) :
  Exists (fun x => totalDuration <= x) clock ->
  Forall (fun x => x < totalDuration) clock -> False.
Proof.
  intros He Hf. rewrite Exists_exists in He. destruct He as (x & Hin & Hx).
  rewrite Forall_forall in Hf. specialize (Hf x Hin). lra.
Qed.

Lemma renderVideoBlob_not_recording fuel b content loadedAssets totalDuration :
  passes b content ->
  loadAll b (GeneratedContent.assets content) = Normal loadedAssets ->
  Browser.audio b (narrationUrl content) = Some totalDuration ->
  Browser.recording b = Browser.NotSupported ->
  renderVideoBlob fuel b content = (World.mk loadedAssets [] [], Rejected RecorderError).
Proof.
  intros (Haudio & Hne & Hctx) Hload Hdur Hrec.
  unfold renderVideoBlob. rewrite Haudio.
  assert (E0 : (List.length (GeneratedContent.assets content) =? 0)%nat = false).
  { apply Nat.eqb_neq. destruct (GeneratedContent.assets content); [congruence|discriminate]. }
  rewrite E0. simpl orb. cbv iota.
  destruct (canvasSize (GeneratedContent.aspectRatio content)) as [width height].
  rewrite Hctx. simpl negb. cbv iota.
  rewrite Hload. fold (narrationUrl content). rewrite Hdur, Hrec. reflexivity.
Qed.

(** X4. When the guards pass, the assets load, the narration decodes and
    the loop is given enough fuel, a render pass settles by what the
    recorder does (its error events, which are not modelled, apart).
    Where the capture stream or the recorder cannot be made or started,
    the pass is rejected with nothing recorded.  Otherwise it is not
    rejected: it resolves as soon as a reading of the audio clock reaches
    the narration's duration, with the blob of the non-empty chunks in
    arrival order, and is pending as long as every reading is before
    it. *)
Theorem render_pass_settles
        (fuel : nat) (b : Browser.t) (content : GeneratedContent.t)
        (loadedAssets : list Element) (totalDuration : Q) :
  passes b content -> soundDurations b ->
  loadAll b (GeneratedContent.assets content) = Normal loadedAssets ->
  Browser.audio b (narrationUrl content) = Some totalDuration ->
  (enoughFuel loadedAssets totalDuration <= fuel)%nat ->
  (Exists (fun x => totalDuration <= x) (Browser.clock b) ->
   snd (renderVideoBlob fuel b content)
   = Resolved (Blob.make (filter nonEmpty (Browser.recorded b)) "video/webm")) /\
  (forall clock,
      Browser.recording b = Browser.Readings clock ->
      Forall (fun x => x < totalDuration) clock ->
      snd (renderVideoBlob fuel b content) = Pending) /\
  (Browser.recording b = Browser.NotSupported ->
   renderVideoBlob fuel b content
   = (World.mk loadedAssets [] [], Rejected RecorderError)) /\
  (forall e,
      snd (renderVideoBlob fuel b content) = Rejected e ->
      e = RecorderError /\ Browser.recording b = Browser.NotSupported).
Proof.
  intros Hpass Hsound Hload Hdur Hfuel.
  pose proof (loadAll_wellLoaded b _ Hsound _ Hload) as Hwl.
  pose proof Hpass as (Haudio & Hne & Hctx).
  destruct (built_with_fuel _ _ totalDuration fuel Hne Hwl Hfuel) as [tl Htl].
  pose proof (segments_itemsOk _ _ totalDuration fuel Hne (proj1 Hwl) 0 0%nat) as Hok.
  rewrite <- buildTimeline_segments, Htl in Hok.
  destruct (Browser.recording b) as [|readings] eqn:Hrec.
  { rewrite (renderVideoBlob_not_recording fuel b content _ _ Hpass Hload Hdur Hrec).
    assert (Hc : Browser.clock b = []) by (unfold Browser.clock; now rewrite Hrec).
    rewrite Hc.
    split; [intros He; inversion He|].
    split; [intros clock [=]|].
    split; [reflexivity|].
    intros e [= <-]. split; reflexivity. }
  assert (Hc : Browser.clock b = readings) by (unfold Browser.clock; now rewrite Hrec).
  assert (Hrec' : Browser.recording b = Browser.Readings (Browser.clock b))
    by (rewrite Hc; exact Hrec).
  set (w1 := emit sourceNode_start (emit recorder_start (World.mk loadedAssets [] []))).
  destruct (frames_shape tl totalDuration
              (inject_Z (fst (canvasSize (GeneratedContent.aspectRatio content))))
              (inject_Z (snd (canvasSize (GeneratedContent.aspectRatio content))))
              _ Hok (Browser.clock b) w1 eq_refl)
    as (w' & ticks & Hch & _ & _ & [(Hall & _ & Hrun)|(pre & x & post & Hcl & Hpre & Hx & _ & Hrun)]);
    rewrite (renderVideoBlob_started fuel b content _ _ _ Hpass Hload Hdur Htl Hrec' _ _ Hrun).
  - split; [intros He; exfalso; eapply reached_or_not; eassumption|].
    split; [reflexivity|].
    split; [intros [=]|].
    intros e [=].
  - split; [intros _; simpl; rewrite ondataavailable_chunks; simpl; now rewrite Hch|].
    split.
    { intros clock [= <-] Hall. exfalso.
      apply (reached_or_not totalDuration readings); [|exact Hall].
      rewrite <- Hc, Hcl. apply Exists_app. right. now left. }
    split; [intros [=]|].
    intros e [=].
Qed.

Lemma render_pass_settles_witness :
  passes (sampleBrowser 12 [0; 5; 12] [emptyChunk; someChunk]) sampleContent /\
  soundDurations (sampleBrowser 12 [0; 5; 12] [emptyChunk; someChunk]) /\
  (enoughFuel [imageEl] 12 <= 3)%nat /\
  Exists (fun x => 12 <= x) [0; 5; 12] /\
  snd (renderVideoBlob 3 (sampleBrowser 12 [0; 5; 12] [emptyChunk; someChunk]) sampleContent)
  = Resolved (Blob.make [someChunk] "video/webm").
Proof.
  assert (P : passes (sampleBrowser 12 [0; 5; 12] [emptyChunk; someChunk]) sampleContent).
  { split; [reflexivity|]. split; [discriminate|reflexivity]. }
  assert (S : soundDurations (sampleBrowser 12 [0; 5; 12] [emptyChunk; someChunk])).
  { intros u w h d H. discriminate H. }
  assert (F : (enoughFuel [imageEl] 12 <= 3)%nat) by (apply Nat.leb_le; reflexivity).
  assert (E : Exists (fun x => 12 <= x) [0; 5; 12]).
  { right. right. left. unfold Qle; simpl; lia. }
  destruct (render_pass_settles 3 (sampleBrowser 12 [0; 5; 12] [emptyChunk; someChunk])
              sampleContent [imageEl] 12 P S eq_refl eq_refl F) as [H _].
  split; [exact P|]. split; [exact S|]. split; [exact F|]. split; [exact E|].
  exact (H E).
Defined.

(** X5. In a render pass that resolves, with a narration of positive
    duration, the recorder and the narration are started first; then each
    reading of the clock before the first one that reaches the narration's
    duration leaves one frame, made of the black clear, at most one drawn
    image and the request for the next call; then the recorder is stopped
    and the audio context closed, and nothing is drawn after that. *)
Theorem render_pass_trace
        (fuel : nat) (b : Browser.t) (content : GeneratedContent.t)
        (loadedAssets : list Element) (totalDuration : Q) :
  passes b content -> soundDurations b ->
  loadAll b (GeneratedContent.assets content) = Normal loadedAssets ->
  Browser.audio b (narrationUrl content) = Some totalDuration ->
  (enoughFuel loadedAssets totalDuration <= fuel)%nat ->
  0 < totalDuration ->
  Exists (fun x => totalDuration <= x) (Browser.clock b) ->
  exists pre x post ticks,
    Browser.clock b = pre ++ x :: post /\
    Forall (fun y => y < totalDuration) pre /\ totalDuration <= x /\
    List.length ticks = List.length pre /\
    Forall (isFrame (inject_Z (fst (canvasSize (GeneratedContent.aspectRatio content))))
                    (inject_Z (snd (canvasSize (GeneratedContent.aspectRatio content)))))
           ticks /\
    World.trace (fst (renderVideoBlob fuel b content))
    = [recorder_start; sourceNode_start] ++ List.concat ticks
      ++ [recorder_stop; audioCtx_close].
Proof.
  intros Hpass Hsound Hload Hdur Hfuel Hpos Hreach.
  pose proof (loadAll_wellLoaded b _ Hsound _ Hload) as Hwl.
  pose proof (recording_reached b totalDuration Hreach) as Hrec.
  destruct Hpass as (Haudio & Hne & Hctx).
  destruct (built_with_fuel _ _ totalDuration fuel Hne Hwl Hfuel) as [tl Htl].
  pose proof (segments_itemsOk _ _ totalDuration fuel Hne (proj1 Hwl) 0 0%nat) as Hok.
  rewrite <- buildTimeline_segments, Htl in Hok.
  pose proof (built_nonempty _ _ _ _ _ Hpos Htl) as Hnonempty.
  set (w1 := emit sourceNode_start (emit recorder_start (World.mk loadedAssets [] []))).
  destruct (frames_shape tl totalDuration
              (inject_Z (fst (canvasSize (GeneratedContent.aspectRatio content))))
              (inject_Z (snd (canvasSize (GeneratedContent.aspectRatio content))))
              _ Hok (Browser.clock b) w1 eq_refl)
    as (w' & ticks & Hc & Ht & Hsh & [(Hall & _ & Hrun)|(pre & x & post & Hcl & Hpre & Hx & Hn & Hrun)]).
  { exfalso. eapply reached_or_not; eassumption. }
  exists pre, x, post, ticks.
  rewrite (renderVideoBlob_started fuel b content _ _ _
             (conj Haudio (conj Hne Hctx)) Hload Hdur Htl Hrec _ _ Hrun).
  repeat split; auto.
  - eapply Forall_impl; [|exact Hsh].
    intros fr [[He _]|Hf]; [contradiction|exact Hf].
  - simpl. rewrite ondataavailable_trace. simpl. rewrite Ht. simpl.
    now rewrite <- !app_assoc.
Qed.

Lemma render_pass_trace_witness :
  passes (sampleBrowser 12 [0; 5; 12] [someChunk]) sampleContent /\
  soundDurations (sampleBrowser 12 [0; 5; 12] [someChunk]) /\
  (enoughFuel [imageEl] 12 <= 3)%nat /\ 0 < 12 /\
  Exists (fun x => 12 <= x) [0; 5; 12] /\
  exists pre x post ticks,
    [0; 5; 12] = pre ++ x :: post /\
    Forall (fun y => y < 12) pre /\ 12 <= x /\
    List.length ticks = List.length pre /\
    World.trace (fst (renderVideoBlob 3 (sampleBrowser 12 [0; 5; 12] [someChunk])
                        sampleContent))
    = [recorder_start; sourceNode_start] ++ List.concat ticks
      ++ [recorder_stop; audioCtx_close].
Proof.
  assert (P : passes (sampleBrowser 12 [0; 5; 12] [someChunk]) sampleContent).
  { split; [reflexivity|]. split; [discriminate|reflexivity]. }
  assert (S : soundDurations (sampleBrowser 12 [0; 5; 12] [someChunk])).
  { intros u w h d H. discriminate H. }
  assert (F : (enoughFuel [imageEl] 12 <= 3)%nat) by (apply Nat.leb_le; reflexivity).
  assert (E : Exists (fun x => 12 <= x) [0; 5; 12]).
  { right. right. left. unfold Qle; simpl; lia. }
  destruct (render_pass_trace 3 (sampleBrowser 12 [0; 5; 12] [someChunk])
              sampleContent [imageEl] 12 P S eq_refl eq_refl F eq_refl E)
    as (pre & x & post & ticks & H1 & H2 & H3 & H4 & _ & H6).
  split; [exact P|]. split; [exact S|]. split; [exact F|].
  split; [reflexivity|]. split; [exact E|].
  exists pre, x, post, ticks.
  split; [exact H1|]. split; [exact H2|]. split; [exact H3|].
  split; [exact H4|exact H6].
Defined.

(** ** What a render pass is rejected for *)

(** X6. Error events of the recorder apart, which are not modelled, a
    render pass is rejected only before the recorder is started and
    anything is drawn, and only for one of five reasons: the narration or
    the assets are missing, the canvas gives no context, an asset cannot be
    loaded, the audio context cannot be created or the narration cannot be
    fetched and decoded, or the capture stream or the recorder cannot be
    made or started.  Building the timeline and the first call of
    [renderLoop] throw nothing. *)
Theorem rejections_precede_recording
        (fuel : nat) (b : Browser.t) (content : GeneratedContent.t) (e : Error) :
  snd (renderVideoBlob fuel b content) = Rejected e ->
  World.trace (fst (renderVideoBlob fuel b content)) = [] /\
  (e = MkError "Missing content" /\
   (falsy (GeneratedContent.audioUrl content) = true \/
    GeneratedContent.assets content = []) \/
   e = MkError "No canvas context" /\ Browser.canvasContext b = false \/
   (exists a, In a (GeneratedContent.assets content) /\
              Browser.media b (Asset.url a) = None /\ e = LoadError (Asset.url a)) \/
   e = AudioError /\ Browser.audio b (narrationUrl content) = None \/
   e = RecorderError /\ Browser.recording b = Browser.NotSupported).
Proof.
  unfold renderVideoBlob.
  destruct (falsy (GeneratedContent.audioUrl content)) eqn:Haudio; simpl orb; cbv iota.
  { intros [= <-]. split; [reflexivity|]. left. auto. }
  destruct (List.length (GeneratedContent.assets content) =? 0)%nat eqn:E0.
  { intros [= <-]. split; [reflexivity|]. left. split; [reflexivity|]. right.
    apply Nat.eqb_eq in E0. now apply length_zero_iff_nil. }
  assert (Hne : GeneratedContent.assets content <> []).
  { intros H. rewrite H in E0. discriminate. }
  destruct (canvasSize (GeneratedContent.aspectRatio content)) as [width height].
  destruct (Browser.canvasContext b) eqn:Hctx; simpl negb; cbv iota.
  2:{ intros [= <-]. split; [reflexivity|]. right. left. auto. }
  destruct (loadAll b (GeneratedContent.assets content)) as [loadedAssets|e'|] eqn:Hload.
  2:{ intros [= <-]. split; [reflexivity|]. right. right. left.
      eapply loadAll_throw, Hload. }
  2:{ discriminate. }
  fold (narrationUrl content).
  destruct (Browser.audio b (narrationUrl content)) as [totalDuration|] eqn:Hdur.
  2:{ intros [= <-]. split; [reflexivity|]. right. right. right. left. auto. }
  destruct (Browser.recording b) as [|readings] eqn:Hrec.
  { intros [= <-]. split; [reflexivity|]. right. right. right. right. auto. }
  pose proof (loadAll_length _ _ _ Hload) as Hlen.
  pose proof (segments_itemsOk _ _ totalDuration fuel Hne Hlen 0 0%nat) as Hok.
  rewrite <- buildTimeline_segments in Hok.
  destruct (buildTimeline _ _ _ fuel) as [timeline|e'|]; [|contradiction|discriminate].
  destruct readings as [|x clock]; [discriminate|].
  set (w1 := emit sourceNode_start (emit recorder_start (World.mk loadedAssets [] []))).
  destruct (renderLoop_shape timeline totalDuration (inject_Z width) (inject_Z height) w1 x Hok)
    as [[_ Hr]|(_ & w2 & Hr & _)]; rewrite Hr.
  - discriminate.
  - destruct (frames _ _ _ _ w2 clock) as [[w3 [|]]| |]; discriminate.
Qed.

Lemma rejections_precede_recording_witness :
  snd (renderVideoBlob 3
         (Browser.mk (fun _ => Some (1024%Z, 768%Z, None)) true (fun _ => Some 12)
            Browser.NotSupported [someChunk])
         sampleContent)
  = Rejected RecorderError /\
  World.trace (fst (renderVideoBlob 3
         (Browser.mk (fun _ => Some (1024%Z, 768%Z, None)) true (fun _ => Some 12)
            Browser.NotSupported [someChunk])
         sampleContent)) = [].
Proof.
  assert (R : snd (renderVideoBlob 3
                     (Browser.mk (fun _ => Some (1024%Z, 768%Z, None)) true
                        (fun _ => Some 12) Browser.NotSupported [someChunk])
                     sampleContent) = Rejected RecorderError) by reflexivity.
  destruct (rejections_precede_recording 3
              (Browser.mk (fun _ => Some (1024%Z, 768%Z, None)) true
                 (fun _ => Some 12) Browser.NotSupported [someChunk])
              sampleContent RecorderError R) as [H _].
  split; [exact R|exact H].
Defined.

(** ** More on aspect-fit placement *)

Lemma drawImageContain_rect (w : World.t) (element : nat) (img : Element) (cw ch : Q) :
  nth_error (World.loadedAssets w) element = Some img ->
  naturalWidth img <> 0%Z -> naturalHeight img <> 0%Z ->
  drawImageContain w element cw ch =
  let '(dx, dy, dw, dh) :=
    containRect (inject_Z (naturalWidth img) / inject_Z (naturalHeight img)) cw ch in
  Normal (emit (drawImage img dx dy dw dh) w).
Proof.
  intros Hel HW HH. unfold drawImageContain, containRect. rewrite Hel.
  assert (E : ((naturalWidth img =? 0)%Z || (naturalHeight img =? 0)%Z)%bool = false).
  { apply orb_false_iff. split; now apply Z.eqb_neq. }
  rewrite E. now destruct (Qlt_bool _ _).
Qed.

Lemma aspect_cross (W1 H1 W2 H2 : Z) :
  (0 < H1)%Z -> (0 < H2)%Z -> (W1 * H2 = W2 * H1)%Z ->
  inject_Z W1 / inject_Z H1 == inject_Z W2 / inject_Z H2.
Proof.
  intros P1 P2 E.
  apply inject_Z_pos in P1. apply inject_Z_pos in P2.
  assert (Eq : inject_Z W1 * inject_Z H2 == inject_Z W2 * inject_Z H1).
  { rewrite <- !inject_Z_mult. now rewrite E. }
  apply Qmult_inj_r with (z := inject_Z H1 * inject_Z H2).
  - intros Hz. assert (0 < inject_Z H1 * inject_Z H2) by (apply Qmult_lt_0_compat; assumption).
    lra.
  - transitivity (inject_Z W1 * inject_Z H2); [field; lra|].
    rewrite Eq. field. lra.
Qed.

Lemma Qlt_bool_comp (a b c d : Q) : a == c -> b == d -> Qlt_bool a b = Qlt_bool c d.
Proof.
  intros E1 E2. unfold Qlt_bool. now rewrite E1, E2.
Qed.

(** X7. A frame whose aspect is that of the canvas is drawn over the whole
    canvas: at the origin, as wide and as high as the canvas, with no
    bar. *)
Theorem same_aspect_fills_canvas
        (w : World.t) (element : nat) (img : Element) (cw ch : Q) :
  nth_error (World.loadedAssets w) element = Some img ->
  (0 < naturalWidth img)%Z -> (0 < naturalHeight img)%Z ->
  0 < cw -> 0 < ch ->
  inject_Z (naturalWidth img) / inject_Z (naturalHeight img) == cw / ch ->
  exists dx dy dw dh,
    drawImageContain w element cw ch = Normal (emit (drawImage img dx dy dw dh) w) /\
    dx == 0 /\ dy == 0 /\ dw == cw /\ dh == ch.
Proof.
  intros Hel HW HH Hcw Hch Easp.
  rewrite (drawImageContain_rect w element img cw ch Hel) by lia.
  unfold containRect.
  assert (Hcmp : Qlt_bool (cw / ch)
                   (inject_Z (naturalWidth img) / inject_Z (naturalHeight img)) = false).
  { apply Qlt_bool_false. rewrite Easp. apply Qle_refl. }
  rewrite Hcmp.
  eexists _, _, _, _. split; [reflexivity|].
  assert (Ew : ch * (inject_Z (naturalWidth img) / inject_Z (naturalHeight img)) == cw).
  { rewrite Easp. field. lra. }
  repeat split; try reflexivity; [|exact Ew].
  rewrite Ew. field.
Qed.

Lemma same_aspect_fills_canvas_witness :
  nth_error (World.loadedAssets (World.mk [videoEl None] [] [])) 0 = Some (videoEl None) /\
  1280 / 720 == 1920 / 1080 /\
  exists dx dy dw dh,
    drawImageContain (World.mk [videoEl None] [] []) 0 1920 1080
    = Normal (emit (drawImage (videoEl None) dx dy dw dh) (World.mk [videoEl None] [] [])) /\
    dx == 0 /\ dy == 0 /\ dw == 1920 /\ dh == 1080.
Proof.
  assert (E : inject_Z (naturalWidth (videoEl None)) / inject_Z (naturalHeight (videoEl None))
              == 1920 / 1080) by reflexivity.
  split; [reflexivity|]. split; [reflexivity|].
  exact (same_aspect_fills_canvas (World.mk [videoEl None] [] []) 0 (videoEl None) 1920 1080
           eq_refl eq_refl eq_refl eq_refl eq_refl E).
Defined.

(** X8. The placement depends on the frame through its aspect only: two
    frames with positive dimensions in the same proportion are drawn in
    the same rectangle. *)
Theorem placement_depends_on_aspect
        (w1 w2 : World.t) (e1 e2 : nat) (img1 img2 : Element) (cw ch : Q) :
  nth_error (World.loadedAssets w1) e1 = Some img1 ->
  nth_error (World.loadedAssets w2) e2 = Some img2 ->
  (0 < naturalWidth img1)%Z -> (0 < naturalHeight img1)%Z ->
  (0 < naturalWidth img2)%Z -> (0 < naturalHeight img2)%Z ->
  (naturalWidth img1 * naturalHeight img2 = naturalWidth img2 * naturalHeight img1)%Z ->
  exists dx dy dw dh dx' dy' dw' dh',
    drawImageContain w1 e1 cw ch = Normal (emit (drawImage img1 dx dy dw dh) w1) /\
    drawImageContain w2 e2 cw ch = Normal (emit (drawImage img2 dx' dy' dw' dh') w2) /\
    dx == dx' /\ dy == dy' /\ dw == dw' /\ dh == dh'.
Proof.
  intros Hel1 Hel2 HW1 HH1 HW2 HH2 Hprop.
  rewrite (drawImageContain_rect w1 e1 img1 cw ch Hel1) by lia.
  rewrite (drawImageContain_rect w2 e2 img2 cw ch Hel2) by lia.
  pose proof (aspect_cross _ _ _ _ HH1 HH2 Hprop) as Easp.
  unfold containRect.
  rewrite (Qlt_bool_comp _ _ (cw / ch)
             (inject_Z (naturalWidth img2) / inject_Z (naturalHeight img2))
             (Qeq_refl _) Easp).
  destruct (Qlt_bool _ _); eexists _, _, _, _, _, _, _, _;
    (split; [reflexivity|]); (split; [reflexivity|]);
    repeat split; try reflexivity; rewrite Easp; reflexivity.
Qed.

Lemma placement_depends_on_aspect_witness :
  (naturalWidth imageEl * naturalHeight (Img (HTMLImageElement.mk 512 384))
   = naturalWidth (Img (HTMLImageElement.mk 512 384)) * naturalHeight imageEl)%Z /\
  exists dx dy dw dh dx' dy' dw' dh',
    drawImageContain pictureWorld 0 1080 1920
    = Normal (emit (drawImage imageEl dx dy dw dh) pictureWorld) /\
    drawImageContain (World.mk [Img (HTMLImageElement.mk 512 384)] [] []) 0 1080 1920
    = Normal (emit (drawImage (Img (HTMLImageElement.mk 512 384)) dx' dy' dw' dh')
                (World.mk [Img (HTMLImageElement.mk 512 384)] [] [])) /\
    dx == dx' /\ dy == dy' /\ dw == dw' /\ dh == dh'.
Proof.
  split; [reflexivity|].
  exact (placement_depends_on_aspect pictureWorld
           (World.mk [Img (HTMLImageElement.mk 512 384)] [] []) 0 0
           imageEl (Img (HTMLImageElement.mk 512 384)) 1080 1920
           eq_refl eq_refl eq_refl eq_refl eq_refl eq_refl eq_refl).
Defined.

(** ** The preview slideshow *)

Lemma nextAsset_inBounds (assets : list Asset.t) (s : Preview.t) :
  assets <> [] ->
  (Preview.currentAssetIndex (nextAsset assets s) < List.length assets)%nat.
Proof.
  intros Hne. simpl. apply Nat.mod_upper_bound.
  destruct assets; [congruence|discriminate].
Qed.

Lemma previewStep_inBounds (assets : list Asset.t) (s : Preview.t) (e : PreviewEvent) :
  assets <> [] ->
  (Preview.currentAssetIndex s < List.length assets)%nat ->
  (Preview.currentAssetIndex (previewStep assets s e) < List.length assets)%nat.
Proof.
  intros Hne Hin. destruct e as [| | | |idx]; simpl.
  - destruct (intervalArmed assets s); [now apply nextAsset_inBounds|exact Hin].
  - unfold handleVideoAssetEnded.
    destruct (videoShown assets s); [|exact Hin].
    destruct (Preview.isPlaying s); [now apply nextAsset_inBounds|exact Hin].
  - destruct (mediaShown assets s); [|exact Hin].
    destruct assets; [congruence|simpl; lia].
  - unfold togglePreview. destruct (mediaShown assets s); exact Hin.
  - destruct (idx <? List.length assets)%nat eqn:E; [|exact Hin].
    now apply Nat.ltb_lt in E.
Qed.

Lemma assetsChanged_inBounds (assets : list Asset.t) (s : Preview.t) :
  assets <> [] ->
  (Preview.currentAssetIndex (assetsChanged assets s) < List.length assets)%nat.
Proof.
  intros Hne. unfold assetsChanged.
  assert (Hpos : (0 < List.length assets)%nat) by (destruct assets; [congruence|simpl; lia]).
  destruct (List.length assets <=? Preview.currentAssetIndex s)%nat eqn:E1; simpl.
  - assert (E2 : (0 <? List.length assets)%nat = true) by now apply Nat.ltb_lt.
    rewrite E2. simpl. exact Hpos.
  - now apply Nat.leb_gt in E1.
Qed.

(** X9. Whatever the component goes through (timer, ended media, clicks,
    new asset lists), once its effects have run the current index points
    into the asset list whenever that list is not empty: the preview always
    has a current asset to show. *)
Theorem preview_index_in_bounds (assets : list Asset.t) (inputs : list MonitorInput) :
  let st := fold_left monitorStep inputs (assets, assetsChanged assets initialPreview) in
  fst st <> [] ->
  exists a, currentAsset (fst st) (snd st) = Some a.
Proof.
  intros st.
  assert (Hinv : fst st = [] \/
                 (Preview.currentAssetIndex (snd st) < List.length (fst st))%nat).
  { subst st.
    assert (H0 : fst (assets, assetsChanged assets initialPreview) = [] \/
                 (Preview.currentAssetIndex (snd (assets, assetsChanged assets initialPreview))
                  < List.length (fst (assets, assetsChanged assets initialPreview)))%nat).
    { simpl. destruct assets as [|a l]; [now left|right].
      apply assetsChanged_inBounds. discriminate. }
    revert H0. generalize (assets, assetsChanged assets initialPreview).
    induction inputs as [|i inputs IH]; intros st H0; [exact H0|].
    simpl. apply IH. destruct i as [new|e]; simpl.
    - destruct new as [|a l]; [now left|right].
      apply assetsChanged_inBounds. discriminate.
    - destruct H0 as [H0|H0]; [now left|].
      destruct (fst st) eqn:E; [now left|right].
      rewrite <- E in *. apply previewStep_inBounds; [rewrite E; discriminate|exact H0]. }
  intros Hne. destruct Hinv as [H|H]; [contradiction|].
  unfold currentAsset.
  destruct (nth_error (fst st) (Preview.currentAssetIndex (snd st))) as [a|] eqn:E; [eauto|].
  apply nth_error_None in E. lia.
Qed.

Lemma preview_index_in_bounds_witness :
  fst (fold_left monitorStep
         [happened previewToggled; happened (thumbnailClicked 1);
          assetsReplaced [anImage]; happened intervalFired]
         ([anImage; aVideo], assetsChanged [anImage; aVideo] initialPreview)) <> [] /\
  exists a,
    currentAsset
      (fst (fold_left monitorStep
              [happened previewToggled; happened (thumbnailClicked 1);
               assetsReplaced [anImage]; happened intervalFired]
              ([anImage; aVideo], assetsChanged [anImage; aVideo] initialPreview)))
      (snd (fold_left monitorStep
              [happened previewToggled; happened (thumbnailClicked 1);
               assetsReplaced [anImage]; happened intervalFired]
              ([anImage; aVideo], assetsChanged [anImage; aVideo] initialPreview)))
    = Some a.
Proof.
  assert (H : fst (fold_left monitorStep
                     [happened previewToggled; happened (thumbnailClicked 1);
                      assetsReplaced [anImage]; happened intervalFired]
                     ([anImage; aVideo], assetsChanged [anImage; aVideo] initialPreview))
              <> []) by discriminate.
  split; [exact H|].
  exact (preview_index_in_bounds [anImage; aVideo]
           [happened previewToggled; happened (thumbnailClicked 1);
            assetsReplaced [anImage]; happened intervalFired] H).
Defined.

Lemma intervalArmed_images (assets : list Asset.t) (s : Preview.t) :
  Forall (fun a => Asset.type a = image) assets ->
  Preview.isPlaying s = true ->
  (Preview.currentAssetIndex s < List.length assets)%nat ->
  intervalArmed assets s = true.
Proof.
  intros Himg Hplay Hin. unfold intervalArmed, currentAsset. rewrite Hplay.
  assert (E : (0 <? List.length assets)%nat = true) by (apply Nat.ltb_lt; lia).
  rewrite E. simpl.
  destruct (nth_error assets (Preview.currentAssetIndex s)) as [a|] eqn:Ea.
  - rewrite Forall_forall in Himg. now rewrite (Himg a (nth_error_In _ _ Ea)).
  - apply nth_error_None in Ea. lia.
Qed.

(** X10. While the preview plays a list of images only, the interval
    moves it through the list in order and around: after [k] firings from
    the index [i] it shows the image at [(i + k)] modulo the number of
    assets, still playing. *)
Theorem slideshow_cycles (assets : list Asset.t) (i k : nat) :
  Forall (fun a => Asset.type a = image) assets ->
  (i < List.length assets)%nat ->
  fold_left (previewStep assets) (repeat intervalFired k) (Preview.mk true i)
  = Preview.mk true ((i + k) mod List.length assets).
Proof.
  intros Himg. revert i.
  induction k as [|k IH]; intros i Hi; simpl.
  - rewrite Nat.add_0_r, Nat.mod_small; auto.
  - rewrite intervalArmed_images; auto.
    unfold nextAsset. simpl.
    rewrite IH by (apply Nat.mod_upper_bound; lia).
    f_equal.
    rewrite Nat.Div0.add_mod_idemp_l. f_equal. lia.
Qed.

Lemma slideshow_cycles_witness :
  Forall (fun a => Asset.type a = image) [anImage; anImage; anImage] /\
  (1 < List.length [anImage; anImage; anImage])%nat /\
  fold_left (previewStep [anImage; anImage; anImage]) (repeat intervalFired 4)
    (Preview.mk true 1)
  = Preview.mk true 2.
Proof.
  assert (A : Forall (fun a => Asset.type a = image) [anImage; anImage; anImage])
    by (repeat constructor).
  assert (B : (1 < List.length [anImage; anImage; anImage])%nat) by (simpl; lia).
  split; [exact A|]. split; [exact B|].
  exact (slideshow_cycles [anImage; anImage; anImage] 1 4 A B).
Defined.

(** X11. When the narration of the preview ends, the preview stops on the
    first asset, and neither the interval nor the end of a clip moves it
    from there: only a click does. *)
Theorem narration_end_rewinds (assets : list Asset.t) (s : Preview.t)
        (events : list PreviewEvent) :
  mediaShown assets s = true ->
  Forall (fun e => e = intervalFired \/ e = videoEnded \/ e = audioEnded) events ->
  fold_left (previewStep assets) events (previewStep assets s audioEnded)
  = Preview.mk false 0.
Proof.
  intros Hshown Hev. simpl previewStep. rewrite Hshown. unfold handleAudioEnded.
  induction Hev as [|e events He _ IH]; [reflexivity|].
  simpl. destruct He as [->|[->| ->]]; simpl.
  - exact IH.
  - unfold handleVideoAssetEnded. simpl.
    now destruct (videoShown assets (Preview.mk false 0)).
  - now destruct (mediaShown assets (Preview.mk false 0)).
Qed.

Lemma narration_end_rewinds_witness :
  mediaShown [anImage; aVideo] (Preview.mk true 1) = true /\
  Forall (fun e => e = intervalFired \/ e = videoEnded \/ e = audioEnded)
         [intervalFired; videoEnded; intervalFired] /\
  fold_left (previewStep [anImage; aVideo]) [intervalFired; videoEnded; intervalFired]
    (previewStep [anImage; aVideo] (Preview.mk true 1) audioEnded)
  = Preview.mk false 0.
Proof.
  assert (A : Forall (fun e => e = intervalFired \/ e = videoEnded \/ e = audioEnded)
                     [intervalFired; videoEnded; intervalFired]).
  { constructor; [now left|]. constructor; [now right; left|].
    constructor; [now left|constructor]. }
  split; [reflexivity|]. split; [exact A|].
  exact (narration_end_rewinds [anImage; aVideo] (Preview.mk true 1)
           [intervalFired; videoEnded; intervalFired] eq_refl A).
Defined.

(** ** File names *)

(** Case analysis on the comparisons of a code unit with the bounds of the
    classes. *)
Ltac plain t :=
  lazymatch t with context [if _ then _ else _] => fail | _ => idtac end.

Ltac code_unit_cases :=
  repeat (cbn [andb orb];
          match goal with
          | |- context [(?a <=? ?b)%N] => plain a; plain b; destruct (N.leb_spec a b)
          end);
  cbn [andb orb];
  first [reflexivity | now left | now right | discriminate | lia | exfalso; lia].

Lemma lowered_unit (c : N) :
  let c1 := if isAlnum c then c else underscore in
  let c2 := if ((65 <=? c1) && (c1 <=? 90))%N%bool then (c1 + 32)%N else c1 in
  isLowerAlnum c2 = true \/ c2 = underscore.
Proof.
  unfold isAlnum, isLowerAlnum, underscore. code_unit_cases.
Qed.

Lemma kept_unit (c : N) :
  isLowerAlnum c = true \/ c = underscore ->
  (if ((65 <=? (if isAlnum c then c else underscore))
       && ((if isAlnum c then c else underscore) <=? 90))%N%bool
   then ((if isAlnum c then c else underscore) + 32)%N
   else (if isAlnum c then c else underscore)) = c.
Proof.
  intros [H| ->]; [|reflexivity].
  revert H. unfold isAlnum, isLowerAlnum, underscore.
  code_unit_cases.
Qed.

Lemma stem_units (s : list N) :
  Forall (fun c => isLowerAlnum c = true \/ c = underscore) (toLowerCase (sanitize s)).
Proof.
  unfold toLowerCase, sanitize. rewrite map_map.
  induction s as [|c s IH]; simpl; constructor; auto.
  apply (lowered_unit c).
Qed.

Lemma stem_kept (s : list N) :
  Forall (fun c => isLowerAlnum c = true \/ c = underscore) s ->
  toLowerCase (sanitize s) = s.
Proof.
  unfold toLowerCase, sanitize. rewrite map_map.
  induction 1 as [|c s Hc _ IH]; simpl; [reflexivity|].
  now rewrite IH, (kept_unit c Hc).
Qed.

Lemma orString_nonempty (s d : list N) : d <> [] -> orString s d <> [].
Proof. destruct s; simpl; [auto|discriminate]. Qed.

Lemma video_stem_nonempty (title : list N) : videoStem title <> [].
Proof.
  intros E.
  assert (L : List.length (videoStem title)
              = List.length (orString title (codeUnits "news_video"))).
  { unfold videoStem, toLowerCase, sanitize. now rewrite !length_map. }
  rewrite E in L. simpl in L. symmetry in L.
  apply length_zero_iff_nil in L. revert L. apply orString_nonempty. discriminate.
Qed.

(** X12. The video is downloaded under a name made of lower-case letters,
    digits and underscores, followed by ".webm": the stem has one code unit
    per code unit of the title (of "news_video" when the title is empty),
    so it is never empty, and holds no separator, dot or space. *)
Theorem video_file_name_safe (title : list N) :
  videoFileName title = videoStem title ++ codeUnits ".webm" /\
  Forall (fun c => isLowerAlnum c = true \/ c = underscore) (videoStem title) /\
  List.length (videoStem title) = List.length (orString title (codeUnits "news_video")) /\
  videoStem title <> [].
Proof.
  split; [reflexivity|]. split; [apply stem_units|].
  assert (L : List.length (videoStem title)
              = List.length (orString title (codeUnits "news_video"))).
  { unfold videoStem, toLowerCase, sanitize. now rewrite !length_map. }
  split; [exact L|apply video_stem_nonempty].
Qed.

(** X13. Cleaning a title for the file name is idempotent, and leaves as
    it is a title that is not empty and is already made of lower-case
    letters, digits and underscores. *)
Theorem video_stem_idempotent (title : list N) :
  videoStem (videoStem title) = videoStem title /\
  (title <> [] ->
   Forall (fun c => isLowerAlnum c = true \/ c = underscore) title ->
   videoStem title = title).
Proof.
  assert (Hkeep : forall s, s <> [] ->
                    Forall (fun c => isLowerAlnum c = true \/ c = underscore) s ->
                    videoStem s = s).
  { intros s Hne Hs. unfold videoStem.
    destruct s as [|c s]; [congruence|]. simpl orString. now apply stem_kept. }
  split; [|apply Hkeep].
  apply Hkeep; [|apply stem_units].
  apply (video_stem_nonempty title).
Qed.

Lemma video_stem_idempotent_witness :
  codeUnits "news42" <> [] /\
  Forall (fun c => isLowerAlnum c = true \/ c = underscore) (codeUnits "news42") /\
  videoStem (codeUnits "news42") = codeUnits "news42".
Proof.
  assert (A : codeUnits "news42" <> []) by discriminate.
  assert (B : Forall (fun c => isLowerAlnum c = true \/ c = underscore) (codeUnits "news42")).
  { repeat (constructor; [left; reflexivity|]). constructor. }
  destruct (video_stem_idempotent (codeUnits "news42")) as [_ H].
  split; [exact A|]. split; [exact B|exact (H A B)].
Defined.

Lemma sanitize_units (s : list N) :
  Forall (fun c => isAlnum c = true \/ c = underscore) (sanitize s).
Proof.
  unfold sanitize.
  induction s as [|c s IH]; simpl; constructor; auto.
  destruct (isAlnum c) eqn:E; auto.
Qed.

Lemma sanitize_kept (s : list N) :
  Forall (fun c => isAlnum c = true) s -> sanitize s = s.
Proof.
  unfold sanitize.
  induction 1 as [|c s Hc _ IH]; simpl; [reflexivity|].
  now rewrite Hc, IH.
Qed.

(** X14. The thumbnail is downloaded under "thumbnail_", a stem and
    ".jpg", where the stem is the first 20 code units of the title (of
    "news" when the title is empty), each kept when it is a letter or a
    digit, whatever its case, and replaced by an underscore otherwise: a
    title of at most 20 letters and digits is its own stem. *)
Theorem thumbnail_file_name_safe (title : list N) :
  thumbnailFileName title
  = codeUnits "thumbnail_" ++ thumbnailStem title ++ codeUnits ".jpg" /\
  thumbnailStem title = sanitize (firstn 20 (orString title (codeUnits "news"))) /\
  (List.length (thumbnailStem title) <= 20)%nat /\
  Forall (fun c => isAlnum c = true \/ c = underscore) (thumbnailStem title) /\
  (title <> [] -> (List.length title <= 20)%nat ->
   Forall (fun c => isAlnum c = true) title -> thumbnailStem title = title).
Proof.
  assert (E : thumbnailStem title = sanitize (firstn 20 (orString title (codeUnits "news")))).
  { unfold thumbnailStem, sanitize. now rewrite firstn_map. }
  split; [reflexivity|]. split; [exact E|]. split; [|split].
  - unfold thumbnailStem. apply firstn_le_length.
  - rewrite E. apply sanitize_units.
  - intros Hne Hlen Hall. rewrite E.
    destruct title as [|c title]; [congruence|]. simpl orString.
    rewrite firstn_all2 by exact Hlen. now apply sanitize_kept.
Qed.

Lemma thumbnail_file_name_safe_witness :
  codeUnits "News42" <> [] /\ (List.length (codeUnits "News42") <= 20)%nat /\
  Forall (fun c => isAlnum c = true) (codeUnits "News42") /\
  thumbnailStem (codeUnits "News42") = codeUnits "News42".
Proof.
  assert (A : codeUnits "News42" <> []) by discriminate.
  assert (B : (List.length (codeUnits "News42") <= 20)%nat) by (apply Nat.leb_le; reflexivity).
  assert (C : Forall (fun c => isAlnum c = true) (codeUnits "News42")).
  { repeat (constructor; [reflexivity|]). constructor. }
  destruct (thumbnail_file_name_safe (codeUnits "News42")) as (_ & _ & _ & _ & H).
  split; [exact A|]. split; [exact B|]. split; [exact C|exact (H A B C)].
Defined.

(** ** The buttons *)

Lemma click_disabled title content (clicks : list (Button * nat * Browser.t)) :
  forall s, Buttons.isProcessingVideo s = true ->
    fold_left (click title content) clicks s = s.
Proof.
  induction clicks as [|[[button fuel] b] clicks IH]; intros s Hs; [reflexivity|].
  simpl. rewrite Hs. now apply IH.
Qed.

(** X15. A click on the upload button whose render pass resolves hands
    the rendered blob to [onPublish] and leaves the processing flag set:
    from then on both buttons are disabled, and no click renders, saves or
    publishes anything.  A click on the download button whose render pass
    resolves saves the blob under the video file name and leaves the
    buttons enabled. *)
Theorem upload_leaves_buttons_disabled
        (title : list N) (content : GeneratedContent.t) (s : Buttons.t)
        (fuel : nat) (b : Browser.t) (blob : Blob.t)
        (clicks : list (Button * nat * Browser.t)) :
  Buttons.isProcessingVideo s = false ->
  snd (renderVideoBlob fuel b content) = Resolved blob ->
  click title content s (uploadButton, fuel, b)
  = Buttons.mk true (Buttons.effects s ++ [onPublish blob]) /\
  fold_left (click title content) clicks (click title content s (uploadButton, fuel, b))
  = Buttons.mk true (Buttons.effects s ++ [onPublish blob]) /\
  click title content s (downloadButton, fuel, b)
  = Buttons.mk false (Buttons.effects s ++ [saved (videoFileName title) blob]).
Proof.
  intros Hs Hr.
  assert (E : click title content s (uploadButton, fuel, b)
              = Buttons.mk true (Buttons.effects s ++ [onPublish blob])).
  { unfold click. rewrite Hs, Hr. reflexivity. }
  split; [exact E|]. split.
  - rewrite E. now apply click_disabled.
  - unfold click. rewrite Hs, Hr. reflexivity.
Qed.

Lemma upload_leaves_buttons_disabled_witness :
  snd (renderVideoBlob 3 (sampleBrowser 12 [0; 12] [someChunk]) sampleContent)
  = Resolved someChunk /\
  fold_left (click (codeUnits "news42") sampleContent)
    [(downloadButton, 3%nat, sampleBrowser 12 [0; 12] [someChunk]);
     (uploadButton, 3%nat, sampleBrowser 12 [0; 12] [someChunk])]
    (click (codeUnits "news42") sampleContent (Buttons.mk false [])
       (uploadButton, 3%nat, sampleBrowser 12 [0; 12] [someChunk]))
  = Buttons.mk true [onPublish someChunk].
Proof.
  assert (R : snd (renderVideoBlob 3 (sampleBrowser 12 [0; 12] [someChunk]) sampleContent)
              = Resolved someChunk) by reflexivity.
  destruct (upload_leaves_buttons_disabled (codeUnits "news42") sampleContent
              (Buttons.mk false []) 3 (sampleBrowser 12 [0; 12] [someChunk]) someChunk
              [(downloadButton, 3%nat, sampleBrowser 12 [0; 12] [someChunk]);
               (uploadButton, 3%nat, sampleBrowser 12 [0; 12] [someChunk])]
              eq_refl R) as (_ & H & _).
  split; [exact R|exact H].
Defined.

(** ** From the browser to the timeline *)




(** ** Publishing *)

Lemma upload_resolved_iff (net : Network.t) :
  uploadVideoToYouTube net = uploadResolved <->
  exists text url status body,
    Network.init net = responded true text (Some url) /\ url <> EmptyString /\
    Network.put net = loaded status body true /\ (200 <= status < 300)%nat.
Proof.
  unfold uploadVideoToYouTube. split.
  - destruct (Network.init net) as [m|ok text location]; [intros [=]|].
    destruct ok; cbn [negb]; [|intros [=]].
    destruct location as [url|]; cbn [falsy]; [|intros [=]].
    destruct (String.length url =? 0)%nat eqn:El; [intros [=]|].
    destruct (Network.put net) as [status body parses| |]; [|intros [=]..].
    destruct (200 <=? status)%nat eqn:E1; cbn [andb]; [|intros [=]].
    destruct (status <? 300)%nat eqn:E2; [|intros [=]].
    destruct parses; [|intros [=]]. intros _.
    exists text, url, status, body.
    split; [reflexivity|]. split; [intros ->; discriminate El|].
    split; [reflexivity|]. split; [now apply Nat.leb_le|now apply Nat.ltb_lt].
  - intros (text & url & status & body & -> & Hurl & -> & H1 & H2).
    cbn [negb falsy].
    destruct url as [|c url]; [congruence|]. cbn [String.length Nat.eqb].
    apply Nat.leb_le in H1. apply Nat.ltb_lt in H2. now rewrite H1, H2.
Qed.

(** X17. From a state other than PUBLISHED, [handlePublish] reaches
    PUBLISHED exactly when a channel is connected, the request that starts
    the upload is answered ok with a non-empty Location header, and the
    transfer ends with a status from 200 to 299 and a response that parses.
    With a channel it starts one upload, with the channel's token, the
    blob it was given and a snippet that holds the first 100 code units of
    the content's title, the first 5000 of its description and its first 50
    tags; without one it starts none, opens the channel dialog and leaves
    the state as it is. *)
Theorem publish_reaches_published (net : Network.t) (blob : Blob.t) (s : App.t) :
  App.appState s <> PUBLISHED ->
  (App.appState (handlePublish net blob s) = PUBLISHED <->
   exists channel text url status body,
     App.connectedChannel s = Some channel /\
     Network.init net = responded true text (Some url) /\ url <> EmptyString /\
     Network.put net = loaded status body true /\ (200 <= status < 300)%nat) /\
  (forall channel,
      App.connectedChannel s = Some channel ->
      exists body,
        App.requests (handlePublish net blob s)
        = App.requests s
          ++ [UploadRequest.mk (YouTubeChannel.accessToken channel) blob body] /\
        Metadata.title body = firstn 100 (Metadata.title (App.metadata s)) /\
        Metadata.description body
        = firstn 5000 (Metadata.description (App.metadata s)) /\
        Metadata.tags body = firstn 50 (Metadata.tags (App.metadata s)) /\
        (List.length (Metadata.title body) <= 100)%nat /\
        (List.length (Metadata.description body) <= 5000)%nat /\
        (List.length (Metadata.tags body) <= 50)%nat) /\
  (App.connectedChannel s = None ->
   App.requests (handlePublish net blob s) = App.requests s /\
   App.appState (handlePublish net blob s) = App.appState s /\
   App.isChannelModalOpen (handlePublish net blob s) = true).
Proof.
  intros Hnot. unfold handlePublish.
  destruct (App.connectedChannel s) as [channel|] eqn:Ech.
  - split; [|split; [|discriminate]].
    + simpl. split.
      * intros H. destruct (uploadVideoToYouTube net) eqn:Eu; try discriminate.
        apply upload_resolved_iff in Eu.
        destruct Eu as (text & url & status & body & H1 & H2 & H3 & H4).
        exists channel, text, url, status, body. auto.
      * intros (ch & text & url & status & body & _ & H1 & H2 & H3 & H4).
        assert (Eu : uploadVideoToYouTube net = uploadResolved).
        { apply upload_resolved_iff. exists text, url, status, body. auto. }
        now rewrite Eu.
    + intros ch [= <-]. exists (snippet (App.metadata s)).
      split; [reflexivity|]. unfold snippet.
      cbn [Metadata.title Metadata.description Metadata.tags].
      split; [reflexivity|]. split; [reflexivity|]. split; [reflexivity|].
      split; [apply firstn_le_length|]. split; apply firstn_le_length.
  - cbn [App.appState App.requests App.isChannelModalOpen].
    split; [|split; [discriminate|auto]].
    split; [intros H; contradiction|].
    intros (ch & _ & _ & _ & _ & H & _). discriminate.
Qed.

Lemma publish_reaches_published_witness :
  App.appState (readyApp (Some aChannel)) <> PUBLISHED /\
  App.appState (handlePublish goodNetwork someChunk (readyApp (Some aChannel))) = PUBLISHED /\
  App.appState (handlePublish quotaNetwork someChunk (readyApp (Some aChannel)))
  <> PUBLISHED.
Proof.
  assert (A : App.appState (readyApp (Some aChannel)) <> PUBLISHED) by discriminate.
  destruct (publish_reaches_published goodNetwork someChunk (readyApp (Some aChannel)) A)
    as [[_ H] _].
  split; [exact A|]. split.
  - apply H. exists aChannel, EmptyString, "https://upload.example/session"%string,
      200%nat, "{}"%string.
    split; [reflexivity|]. split; [reflexivity|]. split; [discriminate|].
    split; [reflexivity|]. split; [apply Nat.le_refl|apply Nat.ltb_lt; reflexivity].
  - discriminate.
Defined.

Lemma appStep_disabled title content (inputs : list AppInput) :
  forall buttons app,
    Buttons.isProcessingVideo buttons = true ->
    monitorMounted app = true ->
    Forall (fun i => keepsMounted i = true) inputs ->
    fold_left (appStep title content) inputs (buttons, app)
    = (buttons, lastApp inputs app).
Proof.
  induction inputs as [|i inputs IH]; intros buttons app Hb Hm Hall; [reflexivity|].
  inversion Hall as [|i' l' Hi Hl]; subst.
  destruct i as [app'|fuel b net].
  - assert (E : appStep title content (buttons, app) (appBecomes app') = (buttons, app')).
    { unfold appStep. cbn [fst snd]. simpl in Hi. now rewrite Hm, Hi. }
    cbn [fold_left]. rewrite E. unfold lastApp. cbn [fold_left].
    apply IH; auto.
  - assert (E : appStep title content (buttons, app) (uploadClicked fuel b net)
                = (buttons, app)).
    { unfold appStep, uploadClick. cbn [fst snd]. now rewrite Hb, andb_false_r. }
    cbn [fold_left]. rewrite E. unfold lastApp. cbn [fold_left].
    apply IH; auto.
Qed.

(** X18. A click on the upload button whose render pass resolves, while
    no channel is connected or when the upload is then rejected, leaves the
    two buttons on screen and disabled: the processing flag stays set.
    Without a channel no upload is started and the channel dialog is
    opened.  As long as the monitor stays on screen, whatever the
    application becomes (a channel connected, for one), the flag stays set
    and no later click on the upload button does anything.  The flag is
    state of the monitor: once the application has shown the archive or the
    landing page in its place and then the monitor again, the flag is
    cleared, and a click whose render pass resolves hands the blob to
    [handlePublish]. *)
Theorem upload_cannot_be_retried
        (title : list N) (content : GeneratedContent.t)
        (buttons : Buttons.t) (app : App.t)
        (fuel : nat) (b : Browser.t) (net : Network.t) (blob : Blob.t) :
  monitorMounted app = true ->
  buttonsShown (App.appState app) = true ->
  Buttons.isProcessingVideo buttons = false ->
  snd (renderVideoBlob fuel b content) = Resolved blob ->
  App.connectedChannel app = None \/
  (exists message, uploadVideoToYouTube net = uploadRejected message) ->
  let st := uploadClick title content (buttons, app) (fuel, b, net) in
  monitorMounted (snd st) = true /\
  buttonsShown (App.appState (snd st)) = true /\
  Buttons.isProcessingVideo (fst st) = true /\
  (App.connectedChannel app = None ->
   App.requests (snd st) = App.requests app /\
   App.isChannelModalOpen (snd st) = true) /\
  (forall inputs,
      Forall (fun i => keepsMounted i = true) inputs ->
      fold_left (appStep title content) inputs st = (fst st, lastApp inputs (snd st))) /\
  (forall app1 app2 fuel' b' net' blob',
      monitorMounted app1 = false ->
      monitorMounted app2 = true ->
      buttonsShown (App.appState app2) = true ->
      snd (renderVideoBlob fuel' b' content) = Resolved blob' ->
      fold_left (appStep title content)
        [appBecomes app1; appBecomes app2; uploadClicked fuel' b' net'] st
      = (Buttons.mk true (Buttons.effects (fst st) ++ [onPublish blob']),
         handlePublish net' blob' app2)).
Proof.
  intros Hmounted Hshown Hidle Hr Hcase st.
  assert (E : st = (Buttons.mk true (Buttons.effects buttons ++ [onPublish blob]),
                    handlePublish net blob app)).
  { unfold st, uploadClick. cbn [fst snd]. rewrite Hmounted, Hshown, Hidle, Hr. reflexivity. }
  assert (Hshown' : buttonsShown (App.appState (handlePublish net blob app)) = true).
  { unfold handlePublish. destruct Hcase as [Hnone|[m Hm]].
    - now rewrite Hnone.
    - destruct (App.connectedChannel app); [|exact Hshown].
      now rewrite Hm. }
  assert (Hview : App.currentView (handlePublish net blob app) = App.currentView app).
  { unfold handlePublish. now destruct (App.connectedChannel app). }
  assert (Hm' : monitorMounted (handlePublish net blob app) = true).
  { unfold monitorMounted in *. rewrite Hview.
    destruct (App.currentView app); [|discriminate Hmounted].
    destruct (App.appState (handlePublish net blob app));
      try discriminate Hshown'; reflexivity. }
  rewrite E. cbn [fst snd].
  split; [exact Hm'|]. split; [exact Hshown'|]. split; [reflexivity|].
  split; [|split].
  - intros Hnone. unfold handlePublish. rewrite Hnone. split; reflexivity.
  - intros inputs Hall. now apply appStep_disabled.
  - intros app1 app2 fuel' b' net' blob' H1 H2 H3 H4.
    cbn [fold_left].
    assert (E1 : appStep title content
                   (Buttons.mk true (Buttons.effects buttons ++ [onPublish blob]),
                    handlePublish net blob app) (appBecomes app1)
                 = (Buttons.mk false (Buttons.effects buttons ++ [onPublish blob]), app1)).
    { unfold appStep. cbn [fst snd Buttons.effects]. now rewrite H1, andb_false_r. }
    rewrite E1.
    assert (E2 : appStep title content
                   (Buttons.mk false (Buttons.effects buttons ++ [onPublish blob]), app1)
                   (appBecomes app2)
                 = (Buttons.mk false (Buttons.effects buttons ++ [onPublish blob]), app2)).
    { unfold appStep. cbn [fst snd Buttons.effects]. now rewrite H1. }
    rewrite E2.
    unfold appStep, uploadClick. cbn [fst snd Buttons.isProcessingVideo Buttons.effects].
    rewrite H2, H3, H4. reflexivity.
Qed.

Lemma upload_cannot_be_retried_witness :
  monitorMounted (readyApp None) = true /\
  buttonsShown (App.appState (readyApp None)) = true /\
  snd (renderVideoBlob 3 (sampleBrowser 12 [0; 12] [someChunk]) sampleContent)
  = Resolved someChunk /\
  fold_left (appStep (codeUnits "news42") sampleContent)
    [appBecomes (readyApp (Some aChannel));
     uploadClicked 3 (sampleBrowser 12 [0; 12] [someChunk]) goodNetwork]
    (uploadClick (codeUnits "news42") sampleContent
       (Buttons.mk false [], readyApp None)
       (3%nat, sampleBrowser 12 [0; 12] [someChunk], goodNetwork))
  = (Buttons.mk true [onPublish someChunk], readyApp (Some aChannel)) /\
  fold_left (appStep (codeUnits "news42") sampleContent)
    [appBecomes (archivedApp (Some aChannel)); appBecomes (readyApp (Some aChannel));
     uploadClicked 3 (sampleBrowser 12 [0; 12] [someChunk]) goodNetwork]
    (uploadClick (codeUnits "news42") sampleContent
       (Buttons.mk false [], readyApp None)
       (3%nat, sampleBrowser 12 [0; 12] [someChunk], goodNetwork))
  = (Buttons.mk true [onPublish someChunk; onPublish someChunk],
     handlePublish goodNetwork someChunk (readyApp (Some aChannel))).
Proof.
  assert (R : snd (renderVideoBlob 3 (sampleBrowser 12 [0; 12] [someChunk]) sampleContent)
              = Resolved someChunk) by reflexivity.
  destruct (upload_cannot_be_retried (codeUnits "news42") sampleContent
              (Buttons.mk false []) (readyApp None) 3
              (sampleBrowser 12 [0; 12] [someChunk]) goodNetwork someChunk
              eq_refl eq_refl eq_refl R (or_introl eq_refl)) as (_ & _ & _ & _ & H & H').
  assert (K : Forall (fun i => keepsMounted i = true)
                [appBecomes (readyApp (Some aChannel));
                 uploadClicked 3 (sampleBrowser 12 [0; 12] [someChunk]) goodNetwork]).
  { constructor; [reflexivity|]. constructor; [reflexivity|]. constructor. }
  split; [reflexivity|]. split; [reflexivity|]. split; [exact R|]. split.
  - exact (H _ K).
  - exact (H' (archivedApp (Some aChannel)) (readyApp (Some aChannel)) 3%nat
              (sampleBrowser 12 [0; 12] [someChunk]) goodNetwork someChunk
              eq_refl eq_refl eq_refl R).
Defined.
